(** * ipymarkup: spans, their order, line wrapping and the ASCII renderer

    A shallow embedding of [ipymarkup/markup.py].  Python integers are [Z],
    Python strings are lists of characters, [None]-or-string fields are
    [option str], exceptions are the [Raise] branch of [result], and the
    generators [as_html], [Wrapper.__call__] and [as_ascii] are the lists
    they yield when drained. *)

From Stdlib Require Import ZArith Ascii String DecimalString.
From Stdlib Require DecimalPos DecimalZ.
From stdpp Require Import list strings.

Local Open Scope Z_scope.

(** ** Strings *)

(** A Python [str]: a sequence of characters (code points below 256). *)
Definition str : Type := list ascii.

(** String literals of the examples. *)
Definition str_of (lit : string) : str := list_ascii_of_string lit.

(** [len(x)] as a Python integer. *)
Definition len {A} (l : list A) : Z := Z.of_nat (length l).

(** [a < b] on [str]: lexicographic on code points, a proper prefix first. *)
Fixpoint str_ltb (a b : str) : bool :=
  match a, b with
  | [], [] => false
  | [], _ :: _ => true
  | _ :: _, [] => false
  | x :: a', y :: b' =>
      if (N_of_ascii x <? N_of_ascii y)%N then true
      else if (N_of_ascii x =? N_of_ascii y)%N then str_ltb a' b'
      else false
  end.

(** Python slice bounds: a negative bound counts from the end, and every
    bound is clamped to [0, n]. *)
Definition clamp (n i : Z) : Z :=
  if i <? 0 then Z.max (i + n) 0 else Z.min i n.

(** [x[lo:hi]] *)
Definition slice {A} (x : list A) (lo hi : Z) : list A :=
  let lo' := clamp (len x) lo in
  let hi' := clamp (len x) hi in
  take (Z.to_nat (hi' - lo')) (drop (Z.to_nat lo') x).

(** [x[lo:]] *)
Definition slice_from {A} (x : list A) (lo : Z) : list A :=
  drop (Z.to_nat (clamp (len x) lo)) x.

(** [x[:hi]] *)
Definition slice_to {A} (x : list A) (hi : Z) : list A :=
  take (Z.to_nat (clamp (len x) hi)) x.

(** [range(a, b)] *)
Definition range (a b : Z) : list Z :=
  (fun i => a + Z.of_nat i) <$> seq 0 (Z.to_nat (b - a)).

(** ** Exceptions *)

Inductive exn : Type :=
| TypeError
| ValueError
| IndexError.

Inductive result (A : Type) : Type :=
| Ok (a : A)
| Raise (e : exn).
Arguments Ok {A} a.
Arguments Raise {A} e.

#[global] Instance result_ret : MRet result := @Ok.
#[global] Instance result_bind : MBind result := fun A B f m =>
  match m with
  | Ok a => f a
  | Raise e => Raise e
  end.

(** A [for x in xs:] loop whose body updates [acc] and may raise. *)
Fixpoint for_each {A B} (xs : list A) (body : B -> A -> result B) (acc : B)
  : result B :=
  match xs with
  | [] => Ok acc
  | x :: xs' => acc' ← body acc x; for_each xs' body acc'
  end.

(** ** Values passed by a caller *)

Inductive pyval : Type :=
| PyNone
| PyInt (z : Z)
| PyStr (x : str).

(** The string that [str(v)] returns; whether the call returns is
    [str_call]. *)
Definition py_str (v : pyval) : str :=
  match v with
  | PyNone => str_of "None"
  | PyInt z => str_of (NilZero.string_of_int (Z.to_int z))
  | PyStr x => x
  end.

(** What a caller passes as [text]: a value, or an object of another
    class, given by what [str] of it does: the string its [__str__]
    returns, or the error it raises. *)
Inductive pytext : Type :=
| Value (v : pyval)
| Object (as_str : result str).

(** [sys.get_int_max_str_digits()], as CPython 3.11 sets it. *)
Definition int_max_str_digits : Z := 4300.

(** [str(text)] as a call: an integer of more than [int_max_str_digits]
    decimal digits raises [ValueError], an object does what its
    [__str__] does, and every other value gives [py_str] of it. *)
Definition str_call (text : pytext) : result str :=
  match text with
  | Value (PyInt z) =>
      if 10 ^ int_max_str_digits <=? Z.abs z then Raise ValueError
      else Ok (py_str (PyInt z))
  | Value v => Ok (py_str v)
  | Object as_str => as_str
  end.

(** Modelled from the spec: [assert_type(item, int)] of [utils.py], which is
    not part of the sources at hand.  Section 4.1 and section 7 of the
    specification: construction fails with a type error when [start] or
    [stop] is not an integer. *)
Definition assert_type_int (item : pyval) : result Z :=
  match item with
  | PyInt z => Ok z
  | _ => Raise TypeError
  end.

(** ** Span *)

Record Span : Type := mkSpan {
  start : Z;
  stop : Z;
  type : option str
}.

#[global] Instance Span_eq_dec : EqDecision Span.
Proof. solve_decision. Defined.

(** [Span.__init__] *)
Definition Span_init (start stop : pyval) (type : option str) : result Span :=
  start ← assert_type_int start;
  stop ← assert_type_int stop;
  if start >=? stop then Raise ValueError
  else Ok (mkSpan start stop type).

(** [Span.__lt__] *)
Definition Span_lt (self other : Span) : bool :=
  if negb (start self =? start other) then start self <? start other
  else if negb (stop self =? stop other) then stop self <? stop other
  else if bool_decide (type self ≠ type other) then
    match type self, type other with
    | None, _ => true
    | _, None => false
    | Some a, Some b => str_ltb a b
    end
  else false.

(** The invariant [Span.__init__] establishes. *)
Definition Span_valid (a : Span) : Prop := start a < stop a.

(** ** sorted *)

(** [sorted(spans)] compares with [__lt__] only and is stable: an element
    goes in front of the first element it is smaller than, so among
    elements that compare equal the input order is kept. *)
Fixpoint insort (x : Span) (l : list Span) : list Span :=
  match l with
  | [] => [x]
  | e :: l' => if Span_lt x e then x :: e :: l' else e :: insort x l'
  end.

Definition sorted (spans : list Span) : list Span :=
  fold_left (fun acc x => insort x acc) spans [].

(** No element is smaller than an element before it. *)
Fixpoint ordered (l : list Span) : Prop :=
  match l with
  | [] => True
  | a :: l' => Forall (fun b => Span_lt b a = false) l' /\ ordered l'
  end.

(** ** Layout groups *)

(** A row of a group: [Line(start, stop, type, level)]. *)
Record Line : Type := mkLine {
  line_start : Z;
  line_stop : Z;
  line_type : option str;
  level : Z
}.

(** A group: [Multiline(start, stop, lines)]. *)
Record Multiline : Type := mkMultiline {
  multi_start : Z;
  multi_stop : Z;
  lines : list Line
}.

(** The smallest level, counting up from [n], that is not in [used]. *)
Fixpoint first_free (fuel : nat) (n : Z) (used : list Z) : Z :=
  match fuel with
  | O => n
  | S fuel' => if bool_decide (n ∈ used) then first_free fuel' (n + 1) used else n
  end.

Definition free_level (used : list Z) : Z := first_free (length used) 0 used.

(** Modelled from the spec: the level assignment of [get_multilines] of
    [multiline.py], which is not part of the sources at hand.  Section 4.2,
    steps 1 to 3 and 5: the spans are scanned in sorted order; the active
    rows that stopped at or before the start of the current span are
    dropped; the span becomes one row over its own extent, at the smallest
    level no active row uses. *)
Fixpoint assign_levels (active : list Line) (spans : list Span) : list Line :=
  match spans with
  | [] => []
  | sp :: rest =>
      let active' := filter (fun l => start sp < line_stop l) active in
      let row := mkLine (start sp) (stop sp) (type sp)
                        (free_level (level <$> active')) in
      row :: assign_levels (row :: active') rest
  end.

(** Modelled from the spec: the grouping of [get_multilines].  Section 4.2,
    step 4 and the edge cases: a row joins the running group when it
    overlaps it (touching alone starts a new group); the extent of a group
    is the union of the extents of its rows (section 3). *)
Fixpoint group_rows (cur : Multiline) (rows : list Line) : list Multiline :=
  match rows with
  | [] => [cur]
  | r :: rest =>
      if line_start r <? multi_stop cur
      then group_rows (mkMultiline (multi_start cur)
                                   (Z.max (multi_stop cur) (line_stop r))
                                   (lines cur ++ [r])) rest
      else cur :: group_rows (mkMultiline (line_start r) (line_stop r) [r]) rest
  end.

(** Modelled from the spec: [get_multilines(spans)] of [multiline.py], which
    is not part of the sources at hand: [computeOverlapLayout] of section
    4.2, on spans that are already sorted. *)
Definition get_multilines (spans : list Span) : list Multiline :=
  match assign_levels [] spans with
  | [] => []
  | r :: rest => group_rows (mkMultiline (line_start r) (line_stop r) [r]) rest
  end.

(** ** Markup *)

Record Markup : Type := mkMarkup {
  text : str;
  spans : list Span;
  multilines : list Multiline
}.

(** [Markup.__init__], the document it builds when [str(text)] returns;
    the call with its error is [Markup_call].  The spans are typed, so
    [assert_type(span, Span)] passes for each of them. *)
Definition Markup_init (text : pyval) (spans : list Span) : Markup :=
  let text := py_str text in
  let spans := sorted spans in
  mkMarkup text spans (get_multilines spans).

(** [Markup(text, spans)] as a call: [Markup.__init__] with the error
    that [str(text)] may raise. *)
Definition Markup_call (text : pytext) (spans : list Span) : result Markup :=
  text ← str_call text;
  let spans := sorted spans in
  Ok (mkMarkup text spans (get_multilines spans)).

(** ** The HTML box renderer *)

(** What [as_html] yields, with the [yield] it comes from: markup, a slice
    of the text, or a label. *)
Inductive piece : Type :=
| Tag (x : str)
| Text (x : str)
| Label (x : str).

Definition piece_str (p : piece) : str :=
  match p with
  | Tag x | Text x | Label x => x
  end.

(** The strings of the [Text] pieces. *)
Definition text_slices (ps : list piece) : list str :=
  omap (fun p => match p with Text x => Some x | _ => None end) ps.

(** Truth value of a [type] field: [None] and the empty string are false. *)
Definition truthy (t : option str) : bool :=
  match t with
  | Some (_ :: _) => true
  | _ => false
  end.

(** The double quote character. *)
Definition dq : ascii := ascii_of_nat 34.

Section Box.
(** The tables of [color.py], which is not part of the sources at hand. *)
Variable BACKGROUND : option str -> str.
Variables DARKER EVEN_DARKER : str -> str.
Variables YELLOW DARK_YELLOW DARKER_YELLOW : str.

(** The class attributes [label] and [color]. *)
Variables label color : bool.

(** The body of [for span in self.spans:] and the statements after the
    loop, with [previous] as loop state. *)
Fixpoint box_spans (text : str) (previous : Z) (spans : list Span)
  : list piece :=
  match spans with
  | [] => [Text (slice_from text previous); Tag (str_of "<div>")]
  | span :: rest =>
      let background :=
        if color then BACKGROUND (type span) else YELLOW in
      let border :=
        if color then DARKER background else DARK_YELLOW in
      let label_color :=
        if color then EVEN_DARKER background else DARKER_YELLOW in
      [Text (slice text previous (start span));
       Tag (str_of "<span style=" ++ [dq] ++
            str_of "padding: 0.15em; border-radius: 0.25em; border: 1px solid "
            ++ border ++ str_of "; background: " ++ background ++ [dq] ++ str_of ">");
       Text (slice text (start span) (stop span))]
      ++ (if label && truthy (type span)
          then [Tag (str_of "<sup style=" ++ [dq] ++ str_of "font-size: 0.7em; color: "
                     ++ label_color ++ str_of ";" ++ [dq] ++ str_of ">");
                Label (default [] (type span));
                Tag (str_of "</sup>")]
          else [])
      ++ Tag (str_of "</span>") :: box_spans text (stop span) rest
  end.

(** [BoxMarkup.as_html] *)
Definition BoxMarkup_as_html (self : Markup) : list piece :=
  Tag (str_of "<div style=" ++ [dq] ++ str_of "white-space: pre-wrap" ++ [dq] ++ str_of ">")
  :: box_spans (text self) 0 (spans self).
End Box.

(** ** The line wrapper *)

(** The line boundaries of [str.splitlines] among the code points below
    256: LF, VT, FF, CR, FS, GS, RS and NEL. *)
Definition is_linebreak (c : ascii) : bool :=
  bool_decide (N_of_ascii c ∈ [10; 11; 12; 13; 28; 29; 30; 133]%N).

Definition CR : ascii := ascii_of_nat 13.
Definition LF : ascii := ascii_of_nat 10.
Definition TAB : ascii := ascii_of_nat 9.
Definition SPACE : ascii := ascii_of_nat 32.
Definition DASH : ascii := ascii_of_nat 45.

(** [text.splitlines()], with the line read so far in [cur]: a boundary
    ends the line, CR LF is one boundary, and what follows the last
    boundary is a line only when it is not empty. *)
Fixpoint splitlines_from (cur : str) (text : str) : list str :=
  match text with
  | [] => match cur with [] => [] | _ => [cur] end
  | c :: rest =>
      if is_linebreak c then
        match rest with
        | c' :: rest' =>
            if bool_decide (c = CR) && bool_decide (c' = LF)
            then cur :: splitlines_from [] rest'
            else cur :: splitlines_from [] rest
        | [] => cur :: splitlines_from [] rest
        end
      else splitlines_from (cur ++ [c]) rest
  end.

Definition splitlines (text : str) : list str := splitlines_from [] text.

(** [for fold in self.wrap(line):] with [start] as loop state: the triples
    yielded and the value of [start] after the loop. *)
Fixpoint yield_folds (start : Z) (folds : list str) : list (Z * Z * str) * Z :=
  match folds with
  | [] => ([], start)
  | fold :: rest =>
      let stop := start + len fold in
      let '(out, start') := yield_folds stop rest in
      ((start, stop, fold) :: out, start')
  end.

Section Wrapper.
(** [textwrap.TextWrapper(width, expand_tabs=False,
    replace_whitespace=False, drop_whitespace=False).wrap], a function of
    Python's standard library. *)
Variable wrap : Z -> str -> list str.

(** [for index, line in enumerate(lines):] over the lines that are left,
    [count] being [len(lines)]. *)
Fixpoint wrap_lines (width : Z) (count : Z) (index : Z) (start : Z)
    (rest : list str) : list (Z * Z * str) :=
  match rest with
  | [] => []
  | line :: rest' =>
      let line := if index <? count - 1 then line ++ [SPACE] else line in
      let '(out, start') := yield_folds start (wrap width line) in
      out ++ wrap_lines width count (index + 1) start' rest'
  end.

(** [Wrapper.__call__] *)
Definition Wrapper_call (width : Z) (text : str) : list (Z * Z * str) :=
  let lines := splitlines text in
  wrap_lines width (len lines) 0 0 lines.
End Wrapper.

(** A wrapper that breaks a line after every [width] characters, as
    [TextWrapper.wrap] does on a line without a break opportunity and on
    a line that fits the width. *)
Fixpoint hard_folds (width : nat) (room : nat) (cur : str) (line : str)
  : list str :=
  match line with
  | [] => match cur with [] => [] | _ => [cur] end
  | c :: rest =>
      match room with
      | O => cur :: hard_folds width (pred width) [c] rest
      | S room' => hard_folds width room' (cur ++ [c]) rest
      end
  end.

Definition hard_wrap (width : Z) (line : str) : list str :=
  hard_folds (Z.to_nat width) (Z.to_nat width) [] line.

(** ** The ASCII renderer *)

Record AsciiMarkup : Type := mkAsciiMarkup {
  markup : Markup;
  wrapper_width : Z
}.

(** [AsciiMarkup.__init__] *)
Definition AsciiMarkup_init (text : pyval) (spans : list Span) (width : Z)
  : AsciiMarkup :=
  mkAsciiMarkup (Markup_init text spans) width.

(** [AsciiMarkup(text, spans, width)] as a call. *)
Definition AsciiMarkup_call (text : pytext) (spans : list Span) (width : Z)
  : result AsciiMarkup :=
  markup ← Markup_call text spans;
  Ok (mkAsciiMarkup markup width).

(** A character matrix: a list of rows. *)
Abbreviation matrix := (list (list ascii)).

(** The position a list index denotes in a list of [n] items: a negative
    index counts from the end, anything outside raises [IndexError]. *)
Definition index_of (n i : Z) : result nat :=
  if (0 <=? i) && (i <? n) then Ok (Z.to_nat i)
  else if (- n <=? i) && (i <? 0) then Ok (Z.to_nat (i + n))
  else Raise IndexError.

(** [matrix[r][c] = ch] *)
Definition matrix_set (m : matrix) (r c : Z) (ch : ascii) : result matrix :=
  i ← index_of (len m) r;
  match m !! i with
  | None => Raise IndexError
  | Some row =>
      j ← index_of (len row) c;
      Ok (<[i := <[j := ch]> row]> m)
  end.

(** [max(xs)], which raises [ValueError] on an empty sequence. *)
Definition py_max (xs : list Z) : result Z :=
  match xs with
  | [] => Raise ValueError
  | x :: xs' => Ok (foldr Z.max x xs')
  end.

(** [enumerate(xs)] *)
Definition enumerate {A} (xs : list A) : list (Z * A) :=
  imap (fun i x => (Z.of_nat i, x)) xs.

(** The [while index < len(self.multilines):] loop over the groups from
    [index] on: the slices appended and the value of [index] after it. *)
Fixpoint select_slices (start stop : Z) (rest : list Multiline) (index : nat)
  : list Multiline * nat :=
  match rest with
  | [] => ([], index)
  | multi :: rest' =>
      if multi_start multi >=? stop then ([], index)
      else
        let slice := mkMultiline (Z.max (multi_start multi) start)
                                 (Z.min (multi_stop multi) stop)
                                 (lines multi) in
        if multi_stop multi <=? stop then
          let '(slices, index') := select_slices start stop rest' (S index) in
          (slice :: slices, index')
        else ([slice], index)
  end.

(** The first pair of nested loops: the dashes. *)
Definition paint_dashes (start : Z) (slices : list Multiline) (m : matrix)
  : result matrix :=
  for_each slices (fun m slice =>
    for_each (lines slice) (fun m line =>
      for_each (range (multi_start slice) (multi_stop slice)) (fun m x =>
        matrix_set m (level line) (x - start) DASH) m) m) m.

(** The second pair of nested loops: the labels. *)
Definition paint_labels (start width : Z) (slices : list Multiline)
    (m : matrix) : result matrix :=
  for_each slices (fun m slice =>
    for_each (lines slice) (fun m line =>
      if truthy (line_type line)
         && bool_decide (line_start line = multi_start slice)
      then
        let size := line_stop line - line_start line in
        let space := width - (multi_start slice - start) in
        let type := slice_to (default [] (line_type line)) (Z.min size space) in
        for_each (enumerate type) (fun m '(x, char) =>
          matrix_set m (level line) (multi_start slice - start + x) char) m
      else Ok m) m) m.

(** The body of [if slices:]: the annotation rows of one wrapped line. *)
Definition annotate (start : Z) (line : str) (slices : list Multiline)
  : result (list str) :=
  match slices with
  | [] => Ok []
  | _ =>
      top ← py_max (slice ← slices; level <$> lines slice);
      let height := top + 1 in
      let width := len line in
      let m := replicate (Z.to_nat height) (replicate (Z.to_nat width) SPACE) in
      m ← paint_dashes start slices m;
      m ← paint_labels start width slices m;
      Ok m
  end.

(** [line.replace('\t', ' ')] *)
Definition replace_tab (line : str) : str :=
  (fun c => if bool_decide (c = TAB) then SPACE else c) <$> line.

(** The body of [for start, stop, line in self.wrapper(self.text):] with
    [index] as loop state.  What one wrapped line yields is kept together:
    its content and its annotation rows. *)
Fixpoint ascii_blocks (ms : list Multiline) (index : nat)
    (wrapped : list (Z * Z * str)) : result (list (str * list str)) :=
  match wrapped with
  | [] => Ok []
  | (start, stop, line) :: rest =>
      let '(slices, index') := select_slices start stop (drop index ms) index in
      rows ← annotate start line slices;
      blocks ← ascii_blocks ms index' rest;
      Ok ((replace_tab line, rows) :: blocks)
  end.

Section AsAscii.
Variable wrap : Z -> str -> list str.

Definition as_ascii_blocks (self : AsciiMarkup)
  : result (list (str * list str)) :=
  ascii_blocks (multilines (markup self)) 0
    (Wrapper_call wrap (wrapper_width self) (text (markup self))).

(** [AsciiMarkup.as_ascii], drained. *)
Definition as_ascii (self : AsciiMarkup) : result (list str) :=
  blocks ← as_ascii_blocks self;
  Ok (block ← blocks; fst block :: snd block).
End AsAscii.

(** ** Lexicographic order, as the specification words it *)

(** [a] is lexicographically smaller than [b]: after a common prefix,
    either [a] ends and [b] goes on, or [a] has the smaller character. *)
Definition lex_lt (a b : str) : Prop :=
  exists p,
    (exists y b', a = p /\ b = p ++ y :: b') \/
    (exists x y a' b', a = p ++ x :: a' /\ b = p ++ y :: b' /\
       (N_of_ascii x < N_of_ascii y)%N).

(** ** Properties of the yielded sequences, as the specification words them *)

(** Each span starts at or after the stop of the span before it. *)
Fixpoint non_overlapping (spans : list Span) : Prop :=
  match spans with
  | [] => True
  | a :: rest =>
      match rest with
      | [] => True
      | b :: _ => stop a <= start b
      end /\ non_overlapping rest
  end.

(** The ranges of the triples are contiguous, each as long as its content,
    and run from [a] to [b]. *)
Fixpoint contiguous (a : Z) (triples : list (Z * Z * str)) (b : Z) : Prop :=
  match triples with
  | [] => a = b
  | (start, stop, content) :: rest =>
      start = a /\ stop - start = len content /\ contiguous stop rest b
  end.

(** The contents of the triples, concatenated. *)
Definition contents (triples : list (Z * Z * str)) : str :=
  triple ← triples; snd triple.

(** The text with every line-break character replaced by a space. *)
Definition replace_breaks (text : str) : str :=
  (fun c => if is_linebreak c then SPACE else c) <$> text.

(** The lines joined by single spaces. *)
Fixpoint join_space (lines : list str) : str :=
  match lines with
  | [] => []
  | line :: rest =>
      match rest with
      | [] => line
      | _ => line ++ SPACE :: join_space rest
      end
  end.

(** Every line break of the text is a single character that is followed
    by more text: no CR LF pair, no line break at the very end. *)
Fixpoint single_breaks (text : str) : bool :=
  match text with
  | [] => true
  | c :: rest =>
      if is_linebreak c then
        match rest with
        | [] => false
        | c' :: _ =>
            negb (bool_decide (c = CR) && bool_decide (c' = LF))
            && single_breaks rest
        end
      else single_breaks rest
  end.

(** ** The painted matrix *)

(** One assignment [matrix[r][c] = ch]. *)
Abbreviation write := (Z * Z * ascii)%type.

(** The assignments in the order given. *)
Definition write_all (m : matrix) (ws : list write) : result matrix :=
  for_each ws (fun m '(r, c, ch) => matrix_set m r c ch) m.

(** The assignments of the dash loops, in the order the loops make them. *)
Definition dash_writes (start : Z) (slices : list Multiline) : list write :=
  slice ← slices;
  line ← lines slice;
  x ← range (multi_start slice) (multi_stop slice);
  [(level line, x - start, DASH)].

(** The test of the label loops. *)
Definition labelled (slice : Multiline) (line : Line) : bool :=
  truthy (line_type line) && bool_decide (line_start line = multi_start slice).

(** [line.type[:min(size, space)]] *)
Definition label_text (start width : Z) (slice : Multiline) (line : Line)
  : str :=
  slice_to (default [] (line_type line))
           (Z.min (line_stop line - line_start line)
                  (width - (multi_start slice - start))).

(** The assignments of the label loops, in the order the loops make them. *)
Definition label_writes (start width : Z) (slices : list Multiline)
  : list write :=
  slice ← slices;
  line ← lines slice;
  if labelled slice line
  then (fun '(x, char) => (level line, multi_start slice - start + x, char))
         <$> enumerate (label_text start width slice line)
  else [].

(** The character the last assignment to [(r, c)] writes, if there is one. *)
Fixpoint last_write (ws : list write) (r c : Z) : option ascii :=
  match ws with
  | [] => None
  | (r', c', ch) :: rest =>
      match last_write rest r c with
      | Some later => Some later
      | None => if bool_decide (r' = r /\ c' = c) then Some ch else None
      end
  end.

(** The character at row [r], column [c], both counted from 0. *)
Definition cell (m : matrix) (r c : Z) : option ascii :=
  row ← m !! Z.to_nat r; row !! Z.to_nat c.

(** [height] rows of [width] characters. *)
Definition shape (height width : Z) (m : matrix) : Prop :=
  len m = height /\ Forall (fun row => len row = width) m.

(** [[[' ' for _ in range(width)] for row in range(height)]] *)
Definition blank (height width : Z) : matrix :=
  replicate (Z.to_nat height) (replicate (Z.to_nat width) SPACE).

(** What the layout engine guarantees of its groups (sections 3 and 4.2):
    a group has at least one row, levels are not negative, and a row has
    the extent of a span. *)
Definition row_ok (l : Line) : Prop :=
  0 <= level l /\ line_start l < line_stop l.

Definition layout_ok (ms : list Multiline) : Prop :=
  Forall (fun multi => lines multi <> [] /\ Forall row_ok (lines multi)) ms.

(** A slice of a group on the line [start, stop). *)
Definition fits (start stop : Z) (slice : Multiline) : Prop :=
  start <= multi_start slice /\ multi_start slice <= stop /\
  multi_stop slice <= stop /\
  lines slice <> [] /\ Forall row_ok (lines slice).

(** The annotation rows of every block are as long as its content. *)
Definition aligned (blocks : list (str * list str)) : Prop :=
  Forall (fun block =>
            Forall (fun row => length row = length block.1) block.2) blocks.

(** ** The renderer, as the specification words it *)

(** Step 3 of section 4.4: every row of every group, re-sliced to the
    intersection of its own extent with the line; rows with an empty
    intersection are discarded.  A surviving row comes with its sliced
    range. *)
Definition surviving (start stop : Z) (ms : list Multiline)
  : list (Line * Z * Z) :=
  multi ← ms;
  row ← lines multi;
  let a := Z.max (line_start row) start in
  let b := Z.min (line_stop row) stop in
  if bool_decide (a < b) then [(row, a, b)] else [].

(** Step 5: there is a dash at matrix row [r], column [c] exactly when a
    surviving row of level [r] has column [c] in its sliced range. *)
Definition spec_dash (start stop : Z) (ms : list Multiline) (r c : Z) : bool :=
  existsb (fun '(row, a, b) =>
             bool_decide (level row = r /\ a <= start + c < b))
          (surviving start stop ms).

(** Step 4: the height is 1 + the largest level of a surviving row. *)
Definition spec_height (start stop : Z) (ms : list Multiline) : result Z :=
  top ← py_max ((fun '(row, _, _) => level row) <$> surviving start stop ms);
  Ok (top + 1).

(** Step 6: the rows that get their label on this line: the surviving
    rows whose sliced range starts at their true start and whose category
    is not empty. *)
Definition spec_labelled (start stop : Z) (ms : list Multiline)
  : list (Line * Z * Z) :=
  filter (fun '(row, a, _) => truthy (line_type row) = true
                              /\ a = line_start row)
         (surviving start stop ms).

(** An assignment stays within [height] rows and [width] columns. *)
Definition in_bounds (height width : Z) (w : write) : Prop :=
  0 <= w.1.1 < height /\ 0 <= w.1.2 < width.

(** ** The HTML line renderers *)

(** The strings of the [Label] pieces. *)
Definition labels (ps : list piece) : list str :=
  omap (fun p => match p with Label x => Some x | _ => None end) ps.

(** The strings of the [Tag] pieces. *)
Definition tags (ps : list piece) : list str :=
  omap (fun p => match p with Tag x => Some x | _ => None end) ps.

Section Line.
(** The table [LINE] of [color.py], which is not part of the sources at
    hand. *)
Variable LINE : option str -> str.

(** The string yielded for one row in the first inner loop of
    [LineMarkup.as_html]. *)
Definition line_open (line : Line) : piece :=
  let padding := 1 + level line * 3 in
  let color := LINE (line_type line) in
  Tag (str_of "<span style=" ++ [dq] ++
       str_of "border-bottom: 2px solid " ++ color ++
       str_of "; padding-bottom: " ++ py_str (PyInt padding) ++ str_of "px"
       ++ [dq] ++ str_of ">").

(** The body of [for multi in self.multilines:] and the statements after
    the loop, with [previous] as loop state. *)
Fixpoint line_groups (text : str) (previous : Z) (ms : list Multiline)
  : list piece :=
  match ms with
  | [] => [Text (slice_from text previous); Tag (str_of "<div>")]
  | multi :: rest =>
      Text (slice text previous (multi_start multi))
      :: (line_open <$> lines multi)
      ++ Text (slice text (multi_start multi) (multi_stop multi))
      :: ((fun _ => Tag (str_of "</span>")) <$> lines multi)
      ++ line_groups text (multi_stop multi) rest
  end.

(** [LineMarkup.as_html] *)
Definition LineMarkup_as_html (self : Markup) : list piece :=
  Tag (str_of "<div style=" ++ [dq] ++
       str_of "line-height: 1.6em; white-space: pre-wrap" ++ [dq] ++ str_of ">")
  :: line_groups (text self) 0 (multilines self).
End Line.

(** The characters [str.strip()] removes, among the code points below 256:
    TAB to CR, FS to US, the space, NEL and the no-break space. *)
Definition is_space (c : ascii) : bool :=
  bool_decide
    (N_of_ascii c ∈ [9; 10; 11; 12; 13; 28; 29; 30; 31; 32; 133; 160]%N).

(** [not text.strip()] *)
Definition strips_to_nothing (text : str) : bool := forallb is_space text.

Section LineLabel.
(** [Soft.BLUE] of [color.py], which is not part of the sources at hand. *)
Variable BLUE : str.

(** What [LineLabelMarkup.as_html] yields for one group after the text
    before it: a yielded value is a string or [None], since [line.type] is
    yielded as it is. *)
Definition label_group (multi : Multiline) (text : str)
  : list (option piece) :=
  if strips_to_nothing text then [Some (Text text)]
  else
    let types := omap line_type (lines multi) in
    [Some (Tag (str_of "<span style=" ++ [dq] ++
                str_of "border-bottom: 2px solid " ++ BLUE ++
                str_of "; padding-bottom: 1px" ++ [dq] ++ str_of ">"));
     Some (Text text);
     Some (Tag (str_of "</span>"));
     Some (Tag (str_of "<span style=" ++ [dq] ++
                str_of "display: inline-block; margin-left: 1px; font-size: 7px;"
                ++ [dq] ++ str_of ">"))]
    ++ match types with
       | [] => []
       | [type] => [Some (Label type)]
       | _ =>
           line ← lines multi;
           [Some (Tag (str_of "<span style=" ++ [dq] ++
                       str_of "display: block; height: 7px;" ++ [dq] ++
                       str_of ">"));
            Label <$> line_type line;
            Some (Tag (str_of "</span>"))]
       end
    ++ [Some (Tag (str_of "</span>"))].

(** The body of [for multi in self.multilines:] and the statements after
    the loop, with [previous] as loop state. *)
Fixpoint label_groups (text : str) (previous : Z) (ms : list Multiline)
  : list (option piece) :=
  match ms with
  | [] => [Some (Text (slice_from text previous)); Some (Tag (str_of "<div>"))]
  | multi :: rest =>
      Some (Text (slice text previous (multi_start multi)))
      :: label_group multi (slice text (multi_start multi) (multi_stop multi))
      ++ label_groups text (multi_stop multi) rest
  end.

(** [LineLabelMarkup.as_html] *)
Definition LineLabelMarkup_as_html (self : Markup) : list (option piece) :=
  Some (Tag (str_of "<div style=" ++ [dq] ++
             str_of "line-height: 1.6em; white-space: pre-wrap" ++ [dq] ++
             str_of ">"))
  :: label_groups (text self) 0 (multilines self).
End LineLabel.

(** [Html._repr_html_]: [''.join(self.as_html)], which raises [TypeError]
    when a yielded value is not a string. *)
Fixpoint repr_html (yielded : list (option piece)) : result str :=
  match yielded with
  | [] => Ok []
  | None :: _ => Raise TypeError
  | Some p :: rest => html ← repr_html rest; Ok (piece_str p ++ html)
  end.

(** The groups follow one another from [previous] on: none starts before
    the stop of the one before it, none stops before it starts. *)
Fixpoint chained (previous : Z) (ms : list Multiline) : Prop :=
  match ms with
  | [] => True
  | multi :: rest =>
      previous <= multi_start multi /\
      multi_start multi <= multi_stop multi /\
      chained (multi_stop multi) rest
  end.

(** The slice of a group on the line [start, stop), as the [while] loop of
    [as_ascii] builds it. *)
Definition reslice (start stop : Z) (multi : Multiline) : Multiline :=
  mkMultiline (Z.max (multi_start multi) start)
              (Z.min (multi_stop multi) stop)
              (lines multi).

(** A group that makes [LineLabelMarkup.as_html] yield [None]: its text is
    not all whitespace, two or more of its rows have a category, and one
    of its rows has none. *)
Definition yields_None (x : str) (multi : Multiline) : Prop :=
  strips_to_nothing (slice x (multi_start multi) (multi_stop multi)) = false /\
  (2 <= length (omap line_type (lines multi)))%nat /\
  exists line, line ∈ lines multi /\ line_type line = None.

(** ** Groups per chunk *)

(** The groups follow one another from [previous] on, and none is empty. *)
Fixpoint groups_from (previous : Z) (ms : list Multiline) : Prop :=
  match ms with
  | [] => True
  | multi :: rest =>
      previous <= multi_start multi /\
      multi_start multi < multi_stop multi /\
      groups_from (multi_stop multi) rest
  end.

(** The groups are in order: none is empty, none starts before the stop of
    the one before it. *)
Definition in_order (ms : list Multiline) : Prop :=
  match ms with
  | [] => True
  | multi :: rest =>
      multi_start multi < multi_stop multi /\
      groups_from (multi_stop multi) rest
  end.

(** The groups not yet passed at offset [start]: they are in order and the
    first one stops after [start]. *)
Definition pending (start : Z) (rest : list Multiline) : Prop :=
  match rest with
  | [] => True
  | multi :: rest' =>
      start < multi_stop multi /\
      multi_start multi < multi_stop multi /\
      groups_from (multi_stop multi) rest'
  end.

(** Every row of a group spans the group: the group is a chunk of the
    extent of each of its rows. *)
Definition rows_span (ms : list Multiline) : Prop :=
  forall multi row, multi ∈ ms -> row ∈ lines multi ->
    line_start row <= multi_start multi /\ multi_stop multi <= line_stop row.

(** Every offset of the extent of a row lies in a group that holds the
    row: the chunks of a row make up its extent. *)
Definition rows_covered (ms : list Multiline) : Prop :=
  forall multi row p, multi ∈ ms -> row ∈ lines multi ->
    line_start row <= p < line_stop row ->
    exists multi', multi' ∈ ms /\ row ∈ lines multi' /\
      multi_start multi' <= p < multi_stop multi'.

(** The groups [as_ascii] is written for: [get_multilines] is not part of
    the sources at hand, and the loops of [as_ascii] paint every row of a
    group over the whole group and put the label of a row where the row
    starts with its group; so the groups are the chunks into which the
    starts and stops of the rows cut the text, in order, each holding the
    rows that span it, with their own extents. *)
Definition chunked (ms : list Multiline) : Prop :=
  in_order ms /\ layout_ok ms /\ rows_span ms /\ rows_covered ms.

(** No row of the groups stops at or before offset [start]. *)
Definition rows_stop_after (start : Z) (ms : list Multiline) : Prop :=
  forall multi row, multi ∈ ms -> row ∈ lines multi -> start < line_stop row.

(** The category of a row as a string. *)
Definition label_of (row : Line) : str := default [] (line_type row).

(** Step 6 of section 4.4: the label of a row on the line is cut to the
    smaller of the sliced width of the row and the rest of the line. *)
Definition spec_label_width (stop : Z) (row : Line) (a b : Z) : Z :=
  Z.min (len (label_of row)) (Z.min (b - a) (stop - a)).

(** A label lies over row [r], column [c] of the matrix of the line. *)
Definition spec_covered (start stop : Z) (ms : list Multiline) (r c : Z)
  : Prop :=
  exists row a b,
    (row, a, b) ∈ spec_labelled start stop ms /\ level row = r /\
    a <= start + c < a + spec_label_width stop row a b.

(** Steps 3 to 5 of section 4.4, of the annotation rows of one line. *)
Definition dashes_as_specified (start stop : Z) (ms : list Multiline)
    (line : str) (rows : list str) : Prop :=
  (surviving start stop ms = [] -> rows = []) /\
  (surviving start stop ms <> [] ->
     spec_height start stop ms = Ok (len rows)) /\
  Forall (fun row => len row = len line) rows /\
  forall r c, 0 <= r < len rows -> 0 <= c < len line ->
    (cell rows r c = Some DASH -> spec_dash start stop ms r c = true) /\
    (spec_dash start stop ms r c = true ->
       ~ spec_covered start stop ms r c -> cell rows r c = Some DASH) /\
    (spec_dash start stop ms r c = false -> cell rows r c = Some SPACE).

(** Step 6 of section 4.4 and the order of painting, of the annotation
    rows of one line: every row that gets its label has its matrix row,
    and every cell is accounted for. *)
Definition labels_as_specified (start stop : Z) (ms : list Multiline)
    (line : str) (rows : list str) : Prop :=
  (forall row a b, (row, a, b) ∈ spec_labelled start stop ms ->
     0 <= level row < len rows) /\
  forall r c, 0 <= r < len rows -> 0 <= c < len line ->
    (spec_covered start stop ms r c ->
       exists row a b,
         (row, a, b) ∈ spec_labelled start stop ms /\ level row = r /\
         a <= start + c < a + spec_label_width stop row a b /\
         cell rows r c = label_of row !! Z.to_nat (start + c - a)) /\
    (~ spec_covered start stop ms r c ->
       cell rows r c
       = Some (if spec_dash start stop ms r c then DASH else SPACE)).

(** * Properties *)

(** ** Scenarios *)

Example scenario_overlap_layout :
  get_multilines (sorted [mkSpan 1 4 (Some (str_of "Y"));
                          mkSpan 0 2 (Some (str_of "X"))])
  = [mkMultiline 0 4 [mkLine 0 2 (Some (str_of "X")) 0;
                      mkLine 1 4 (Some (str_of "Y")) 1]].
Proof. reflexivity. Qed.

Example scenario_disjoint_layout :
  get_multilines (sorted [mkSpan 0 5 (Some (str_of "A"));
                          mkSpan 6 11 (Some (str_of "B"))])
  = [mkMultiline 0 5 [mkLine 0 5 (Some (str_of "A")) 0];
     mkMultiline 6 11 [mkLine 6 11 (Some (str_of "B")) 0]].
Proof. reflexivity. Qed.

Example scenario_overlap_ascii :
  as_ascii hard_wrap
    (AsciiMarkup_init (PyStr (str_of "ab cd"))
       [mkSpan 0 2 (Some (str_of "X")); mkSpan 1 4 (Some (str_of "Y"))] 70)
  = Ok [str_of "ab cd"; str_of "X--- "; str_of "---- "].
Proof. vm_compute. reflexivity. Qed.

Example scenario_wrap_boundary :
  as_ascii hard_wrap
    (AsciiMarkup_init (PyStr (str_of "abcdefghijkl"))
       [mkSpan 3 10 (Some (str_of "LOC"))] 5)
  = Ok [str_of "abcde"; str_of "   LO";
        str_of "fghij"; str_of "-----";
        str_of "kl"].
Proof. vm_compute. reflexivity. Qed.

(** ** The order on strings *)

Lemma N_of_ascii_inj (x y : ascii) : N_of_ascii x = N_of_ascii y -> x = y.
Proof.
  intros H. rewrite <- (ascii_N_embedding x), <- (ascii_N_embedding y).
  now rewrite H.
Qed.

Lemma str_ltb_irrefl (a : str) : str_ltb a a = false.
Proof.
  induction a as [|x a IH]; simpl; [done|].
  rewrite N.ltb_irrefl, N.eqb_refl. exact IH.
Qed.

Lemma str_ltb_trans (a b c : str) :
  str_ltb a b = true -> str_ltb b c = true -> str_ltb a c = true.
Proof.
  revert b c. induction a as [|x a IH]; intros [|y b] [|z c]; simpl; try done.
  destruct (N.ltb_spec (N_of_ascii x) (N_of_ascii y)) as [Hxy|Hxy];
  destruct (N.ltb_spec (N_of_ascii y) (N_of_ascii z)) as [Hyz|Hyz];
  destruct (N.ltb_spec (N_of_ascii x) (N_of_ascii z)) as [Hxz|Hxz];
  destruct (N.eqb_spec (N_of_ascii x) (N_of_ascii y));
  destruct (N.eqb_spec (N_of_ascii y) (N_of_ascii z));
  destruct (N.eqb_spec (N_of_ascii x) (N_of_ascii z));
  try done; try lia.
  apply IH.
Qed.

Lemma str_ltb_total (a b : str) :
  str_ltb a b = false -> str_ltb b a = false -> a = b.
Proof.
  revert b. induction a as [|x a IH]; intros [|y b]; simpl; try done.
  destruct (N.ltb_spec (N_of_ascii x) (N_of_ascii y)) as [Hxy|Hxy];
  destruct (N.ltb_spec (N_of_ascii y) (N_of_ascii x)) as [Hyx|Hyx];
  destruct (N.eqb_spec (N_of_ascii x) (N_of_ascii y)) as [E|E];
  destruct (N.eqb_spec (N_of_ascii y) (N_of_ascii x)) as [E'|E'];
  try done; try lia.
  intros H1 H2. f_equal; [now apply N_of_ascii_inj | now apply IH].
Qed.

Lemma str_ltb_asym (a b : str) : str_ltb a b = true -> str_ltb b a = false.
Proof.
  intros H. destruct (str_ltb b a) eqn:E; [|done].
  pose proof (str_ltb_trans _ _ _ H E) as Hc.
  now rewrite str_ltb_irrefl in Hc.
Qed.

Lemma str_ltb_lex (a b : str) : str_ltb a b = true <-> lex_lt a b.
Proof.
  split.
  - revert b. induction a as [|x a IH]; intros [|y b]; simpl; try done.
    + intros _. exists []. left. by exists y, b.
    + destruct (N.ltb_spec (N_of_ascii x) (N_of_ascii y)) as [Hxy|Hxy].
      * intros _. exists []. right. by exists x, y, a, b.
      * destruct (N.eqb_spec (N_of_ascii x) (N_of_ascii y)) as [E|E]; [|done].
        apply N_of_ascii_inj in E as ->.
        intros [p Hp]%IH. exists (y :: p).
        destruct Hp as [(z & b' & -> & ->)|(u & v & a' & b' & -> & -> & Huv)].
        -- left. by exists z, b'.
        -- right. by exists u, v, a', b'.
  - intros [p Hp]. revert a b Hp.
    induction p as [|c p IH]; intros a b Hp.
    + destruct Hp as [(z & b' & -> & ->)|(u & v & a' & b' & -> & -> & Huv)];
        simpl; [done|].
      by apply N.ltb_lt in Huv as ->.
    + assert (exists a0 b0, a = c :: a0 /\ b = c :: b0 /\ str_ltb a0 b0 = true)
        as (a0 & b0 & -> & -> & H0).
      { destruct Hp as [(z & b' & -> & ->)|(u & v & a' & b' & -> & -> & Huv)].
        - exists p, (p ++ z :: b'). repeat split. apply IH. left. by exists z, b'.
        - exists (p ++ u :: a'), (p ++ v :: b'). repeat split.
          apply IH. right. by exists u, v, a', b'. }
      simpl. by rewrite N.ltb_irrefl, N.eqb_refl.
Qed.

(** ** The order on spans *)

(** Unfolds [Span_lt] and turns its tests into propositions. *)
Ltac span_lt_cases :=
  unfold Span_lt; simpl;
  repeat match goal with
  | |- context [?x =? ?y] => destruct (Z.eqb_spec x y); simpl
  | |- context [?x <? ?y] => destruct (Z.ltb_spec x y); simpl
  | |- context [bool_decide ?P] => destruct (bool_decide_reflect P); simpl
  end;
  repeat match goal with
  | H : ¬ (_ ≠ _) |- _ => apply dec_stable in H
  end.

Lemma Span_lt_irrefl (a : Span) : Span_lt a a = false.
Proof. destruct a. span_lt_cases; try done; lia. Qed.

Lemma Span_lt_trans (a b c : Span) :
  Span_lt a b = true -> Span_lt b c = true -> Span_lt a c = true.
Proof.
  destruct a as [a1 a2 [ta|]], b as [b1 b2 [tb|]], c as [c1 c2 [tc|]];
    span_lt_cases; try done; try lia; try congruence.
  - apply str_ltb_trans.
  - intros H1 H2. pose proof (str_ltb_trans _ _ _ H1 H2) as H.
    replace tc with ta in H by congruence. now rewrite str_ltb_irrefl in H.
Qed.

Lemma Span_lt_total (a b : Span) :
  Span_lt a b = false -> Span_lt b a = false -> a = b.
Proof.
  destruct a as [a1 a2 [ta|]], b as [b1 b2 [tb|]];
    span_lt_cases; try done; try lia; try congruence.
  intros H1 H2. pose proof (str_ltb_total _ _ H1 H2). congruence.
Qed.

Lemma Span_lt_asym (a b : Span) : Span_lt a b = true -> Span_lt b a = false.
Proof.
  intros H. destruct (Span_lt b a) eqn:E; [|done].
  pose proof (Span_lt_trans _ _ _ H E) as Hc.
  now rewrite Span_lt_irrefl in Hc.
Qed.

(** C4: [a < b] holds exactly when [(a.start, a.stop)] is lexicographically
    smaller, or the two are equal and either [a] has no category while [b]
    has one, or both have one and that of [a] is lexicographically smaller;
    spans equal on start, stop and category are smaller in neither
    direction. *)
Theorem Span_lt_spec (a b : Span) :
  (Span_lt a b = true <->
     (start a < start b \/ (start a = start b /\ stop a < stop b)) \/
     (start a = start b /\ stop a = stop b /\
        ((type a = None /\ type b <> None) \/
         (exists x y, type a = Some x /\ type b = Some y /\ lex_lt x y)))) /\
  ((start a = start b /\ stop a = stop b /\ type a = type b) <->
     (Span_lt a b = false /\ Span_lt b a = false)).
Proof.
  split.
  - destruct a as [a1 a2 ta], b as [b1 b2 tb]. unfold Span_lt. simpl. split.
    + destruct (Z.eqb_spec a1 b1); simpl;
        [destruct (Z.eqb_spec a2 b2); simpl|].
      * destruct (bool_decide_reflect (ta ≠ tb)) as [Hne|He].
        -- destruct ta as [x|], tb as [y|]; try done.
           ++ intros H. right. repeat split; try done. right.
              exists x, y. repeat split. by apply str_ltb_lex.
           ++ intros _. right. repeat split; try done. by left.
        -- intros; done.
      * intros H%Z.ltb_lt. left. right. done.
      * intros H%Z.ltb_lt. left. left. done.
    + intros [[H|[H1 H2]]|(H1 & H2 & H3)].
      * destruct (Z.eqb_spec a1 b1); simpl; [lia|]. by apply Z.ltb_lt.
      * destruct (Z.eqb_spec a1 b1); simpl; [|lia].
        destruct (Z.eqb_spec a2 b2); simpl; [lia|]. by apply Z.ltb_lt.
      * destruct (Z.eqb_spec a1 b1); simpl; [|lia].
        destruct (Z.eqb_spec a2 b2); simpl; [|lia].
        destruct H3 as [[-> Hb]|(x & y & -> & -> & Hlt)].
        -- rewrite bool_decide_true by congruence. done.
        -- apply str_ltb_lex in Hlt.
           rewrite bool_decide_true; [done|].
           intros [= ->]. now rewrite str_ltb_irrefl in Hlt.
  - split.
    + intros (H1 & H2 & H3).
      assert (a = b) as -> by (destruct a, b; simpl in *; congruence).
      by rewrite Span_lt_irrefl.
    + intros [H1 H2]. by rewrite (Span_lt_total _ _ H1 H2).
Qed.

(** ** Sorting *)

Lemma insort_perm (x : Span) (l : list Span) : insort x l ≡ₚ x :: l.
Proof.
  induction l as [|e l IH]; simpl; [done|].
  destruct (Span_lt x e); [done|]. rewrite IH. apply Permutation_swap.
Qed.

Lemma insort_ordered (x : Span) (l : list Span) :
  ordered l -> ordered (insort x l).
Proof.
  induction l as [|e l IH]; simpl.
  - intros _. split; [constructor | done].
  - intros [Hall Hord]. destruct (Span_lt x e) eqn:E; simpl.
    + split; [|done]. constructor; [by apply Span_lt_asym|].
      eapply Forall_impl; [exact Hall|]. intros b Hb. simpl in Hb.
      destruct (Span_lt b x) eqn:Ebx; [|done].
      by rewrite (Span_lt_trans _ _ _ Ebx E) in Hb.
    + split; [|by apply IH].
      rewrite insort_perm. by constructor.
Qed.

Lemma insort_last (x : Span) (l : list Span) :
  Forall (fun e => Span_lt x e = false) l -> insort x l = l ++ [x].
Proof.
  induction 1 as [|e l He _ IH]; simpl; [done|]. by rewrite He, IH.
Qed.

Lemma ordered_app (l1 l2 : list Span) :
  ordered (l1 ++ l2) ->
  ordered l1 /\ ordered l2 /\
  Forall (fun a => Forall (fun b => Span_lt b a = false) l2) l1.
Proof.
  induction l1 as [|a l1 IH]; simpl.
  - intros H. repeat split; [done | constructor].
  - intros [Hall Hord]. apply Forall_app in Hall as [H1 H2].
    destruct (IH Hord) as (Ho1 & Ho2 & Hcross).
    repeat split; try done. by constructor.
Qed.

Lemma sorted_from_ordered (acc l : list Span) :
  ordered (acc ++ l) -> fold_left (fun acc x => insort x acc) l acc = acc ++ l.
Proof.
  revert acc. induction l as [|x l IH]; intros acc H; simpl.
  - by rewrite app_nil_r.
  - rewrite insort_last.
    + rewrite IH; rewrite <- app_assoc; done.
    + apply ordered_app in H as (_ & _ & Hcross).
      eapply Forall_impl; [exact Hcross|]. intros a Ha. simpl in Ha.
      by apply Forall_cons in Ha as [Ha _].
Qed.

Lemma sorted_from_inv (acc l : list Span) :
  ordered acc ->
  ordered (fold_left (fun acc x => insort x acc) l acc) /\
  fold_left (fun acc x => insort x acc) l acc ≡ₚ acc ++ l.
Proof.
  revert acc. induction l as [|x l IH]; intros acc H; simpl.
  - by rewrite app_nil_r.
  - destruct (IH (insort x acc) (insort_ordered x acc H)) as [Ho Hp].
    split; [done|]. rewrite Hp, insort_perm. simpl.
    apply Permutation_middle.
Qed.

(** C7: the comparison of spans is a strict weak ordering: irreflexive,
    transitive, and two spans are smaller in neither direction exactly when
    they are equal; so sorting gives an ordered permutation of its input,
    sorting again changes nothing, and sorting a list that is already
    ordered leaves it as it is. *)
Theorem Span_lt_strict_weak_order :
  (forall a, Span_lt a a = false) /\
  (forall a b c, Span_lt a b = true -> Span_lt b c = true -> Span_lt a c = true) /\
  (forall a b, (Span_lt a b = false /\ Span_lt b a = false) <-> a = b) /\
  (forall l, ordered (sorted l) /\ sorted l ≡ₚ l) /\
  (forall l, sorted (sorted l) = sorted l) /\
  (forall l, ordered l -> sorted l = l).
Proof.
  assert (Hfix : forall l, ordered l -> sorted l = l).
  { intros l H. unfold sorted. by rewrite sorted_from_ordered. }
  assert (Hinv : forall l, ordered (sorted l) /\ sorted l ≡ₚ l).
  { intros l. apply (sorted_from_inv [] l). simpl. done. }
  split; [apply Span_lt_irrefl|].
  split; [apply Span_lt_trans|].
  split.
  { intros a b. split.
    - intros [H1 H2]. by apply Span_lt_total.
    - intros ->. split; apply Span_lt_irrefl. }
  split; [exact Hinv|].
  split; [|exact Hfix].
  intros l. apply Hfix, Hinv.
Qed.

Lemma Span_lt_strict_weak_order_witness :
  sorted [mkSpan 0 2 None; mkSpan 0 2 (Some (str_of "X")); mkSpan 1 4 None]
  = [mkSpan 0 2 None; mkSpan 0 2 (Some (str_of "X")); mkSpan 1 4 None].
Proof.
  apply Span_lt_strict_weak_order.
  simpl. repeat split; repeat constructor.
Defined.

(** ** Construction *)

(** C5: constructing a span raises the range error exactly when [start] and
    [stop] are integers with [start >= stop], raises the type error exactly
    when [start] or [stop] is not an integer, and for integers with
    [start < stop] succeeds and stores [start], [stop] and the category
    unchanged. *)
Theorem Span_init_spec (a b : pyval) (t : option str) :
  (Span_init a b t = Raise ValueError <->
     exists x y, a = PyInt x /\ b = PyInt y /\ x >= y) /\
  (Span_init a b t = Raise TypeError <->
     ~ (exists x y, a = PyInt x /\ b = PyInt y)) /\
  (forall x y, a = PyInt x -> b = PyInt y -> x < y ->
     exists sp, Span_init a b t = Ok sp /\
       start sp = x /\ stop sp = y /\ type sp = t /\ Span_valid sp).
Proof.
  unfold Span_init, Span_valid.
  destruct a as [|x|?], b as [|y|?]; simpl;
    try (split; [|split]; [split; [done | by intros (? & ? & ? & ? & ?)]
                          | split; [by intros _ (? & ? & ? & ?) | done]
                          | by intros ? ? ? ?]).
  destruct (Z.geb_spec x y); (split; [|split]).
  - split; [|done]. intros _. exists x, y. repeat split; lia.
  - split; [done|]. intros []. by exists x, y.
  - intros ? ? [= <-] [= <-]. lia.
  - split; [done|]. intros (? & ? & [= <-] & [= <-] & ?). lia.
  - split; [done|]. intros []. by exists x, y.
  - intros ? ? [= <-] [= <-] ?. eexists. repeat split; simpl; lia.
Qed.

Lemma Span_init_spec_witness :
  exists sp, Span_init (PyInt 3) (PyInt 10) (Some (str_of "LOC")) = Ok sp /\
    start sp = 3 /\ stop sp = 10 /\ type sp = Some (str_of "LOC") /\
    Span_valid sp.
Proof.
  apply (Span_init_spec (PyInt 3) (PyInt 10) (Some (str_of "LOC"))).
  - reflexivity.
  - reflexivity.
  - lia.
Defined.

Lemma Z_to_int_proper (z : Z) :
  Z.to_int z <> Decimal.Pos Decimal.Nil /\
  Z.to_int z <> Decimal.Neg Decimal.Nil.
Proof.
  destruct z as [|p|p]; simpl; split; try discriminate;
    intros [= H]; by apply DecimalPos.Unsigned.to_uint_nonnil in H.
Qed.

Lemma py_str_decimal (z : Z) :
  option_map Z.of_int
    (NilZero.int_of_string (string_of_list_ascii (py_str (PyInt z))))
  = Some z.
Proof.
  unfold py_str, str_of. rewrite string_of_list_ascii_of_string.
  destruct (Z_to_int_proper z) as [H1 H2].
  rewrite (NilZero.isi _ H1 H2). simpl. by rewrite DecimalZ.of_to.
Qed.

Lemma str_call_Raise (text : pytext) (e : exn) :
  str_call text = Raise e <->
  (exists z, text = Value (PyInt z) /\
             10 ^ int_max_str_digits <= Z.abs z /\ e = ValueError) \/
  text = Object (Raise e).
Proof.
  split.
  - destruct text as [[|z|x]|as_str]; simpl; try discriminate.
    + destruct (Z.leb_spec (10 ^ int_max_str_digits) (Z.abs z));
        [|discriminate].
      intros [= <-]. left. by exists z.
    + intros ->. by right.
  - intros [(z & -> & Hz & ->) | ->]; simpl; [|done].
    by destruct (Z.leb_spec (10 ^ int_max_str_digits) (Z.abs z)); [|lia].
Qed.

(** C10, as amended: constructing a document never checks the type of
    [text]; it raises because of [text] exactly when [str(text)] raises,
    which among the values is the case for the integers of more than 4300
    decimal digits alone, with [ValueError], and for an object when its
    [__str__] raises; whenever [str(text)] returns, the document is
    constructed, it is the document constructed from the coerced string,
    its text is that string, and so is the document the ASCII renderer
    works on; the string stored for an integer is its decimal form, which
    reads back as the integer. *)
Theorem Markup_call_coerces_text (v : pytext) (sp : list Span) :
  (forall e, Markup_call v sp = Raise e <-> str_call v = Raise e) /\
  (forall e, str_call v = Raise e <->
     (exists z, v = Value (PyInt z) /\
                10 ^ int_max_str_digits <= Z.abs z /\ e = ValueError) \/
     v = Object (Raise e)) /\
  (forall x, str_call v = Ok x ->
     Markup_call v sp = Ok (Markup_init (PyStr x) sp) /\
     Markup_call v sp = Markup_call (Value (PyStr x)) sp /\
     text (Markup_init (PyStr x) sp) = x /\
     forall width,
       AsciiMarkup_call v sp width
       = Ok (AsciiMarkup_init (PyStr x) sp width)) /\
  (forall u, v = Value u ->
     (forall z, u = PyInt z -> Z.abs z < 10 ^ int_max_str_digits) ->
     str_call v = Ok (py_str u) /\
     Markup_call v sp = Ok (Markup_init u sp)) /\
  (forall z, v = Value (PyInt z) -> Z.abs z < 10 ^ int_max_str_digits ->
     exists doc,
       Markup_call v sp = Ok doc /\
       option_map Z.of_int
         (NilZero.int_of_string (string_of_list_ascii (text doc)))
       = Some z).
Proof.
  split; [|split; [|split; [|split]]].
  - intros e. unfold Markup_call.
    destruct (str_call v) as [x|e']; simpl; split; congruence.
  - intros e. apply str_call_Raise.
  - intros x Hx. unfold AsciiMarkup_call, Markup_call. rewrite Hx. done.
  - intros u -> Hu. unfold Markup_call.
    destruct u as [|z|x]; simpl; try done.
    specialize (Hu z eq_refl).
    by destruct (Z.leb_spec (10 ^ int_max_str_digits) (Z.abs z)); [lia|].
  - intros z -> Hz. unfold Markup_call. simpl.
    destruct (Z.leb_spec (10 ^ int_max_str_digits) (Z.abs z)); [lia|].
    eexists. split; [done|]. simpl. apply py_str_decimal.
Qed.

Lemma Markup_call_coerces_text_witness :
  str_call (Value (PyInt (-42))) = Ok (str_of "-42") /\
  Markup_call (Value (PyInt (-42))) [mkSpan 0 2 None]
  = Ok (Markup_init (PyStr (str_of "-42")) [mkSpan 0 2 None]).
Proof.
  split; [reflexivity|].
  apply (proj1 (proj2 (proj2 (Markup_call_coerces_text
                                (Value (PyInt (-42))) [mkSpan 0 2 None])))
           (str_of "-42")).
  reflexivity.
Defined.

(** C10, as stated, fails for an integer of 4301 digits: [str(10 ** 4300)]
    raises [ValueError], and so does the construction of the document,
    while the integer of 4300 digits below it is accepted. *)
Lemma Markup_call_raises_on_long_integer :
  Markup_call (Value (PyInt (10 ^ 4300))) [] = Raise ValueError /\
  exists doc, Markup_call (Value (PyInt (10 ^ 4300 - 1))) [] = Ok doc.
Proof.
  split.
  - unfold Markup_call, str_call.
    replace (10 ^ int_max_str_digits <=? Z.abs (10 ^ 4300)) with true
      by (vm_compute; reflexivity).
    reflexivity.
  - unfold Markup_call, str_call.
    replace (10 ^ int_max_str_digits <=? Z.abs (10 ^ 4300 - 1)) with false
      by (vm_compute; reflexivity).
    eexists. reflexivity.
Qed.

(** ** The HTML box renderer *)

Lemma slice_then_rest {A} (x : list A) (a b : Z) :
  0 <= a <= b -> slice x a b ++ slice_from x b = slice_from x a.
Proof.
  intros H. unfold slice, slice_from, clamp.
  destruct (Z.ltb_spec a 0), (Z.ltb_spec b 0); try lia.
  set (a' := Z.min a (len x)). set (b' := Z.min b (len x)).
  assert (Hab : Z.to_nat b' = (Z.to_nat a' + Z.to_nat (b' - a'))%nat)
    by (unfold len in *; lia).
  rewrite Hab, <- drop_drop. apply take_drop.
Qed.

Lemma text_slices_app (ps qs : list piece) :
  text_slices (ps ++ qs) = text_slices ps ++ text_slices qs.
Proof. apply omap_app. Qed.

Section BoxText.
Variable BACKGROUND : option str -> str.
Variables DARKER EVEN_DARKER : str -> str.
Variables YELLOW DARK_YELLOW DARKER_YELLOW : str.
Variables label color : bool.

Let box := box_spans BACKGROUND DARKER EVEN_DARKER
                     YELLOW DARK_YELLOW DARKER_YELLOW label color.

Lemma box_spans_text (x : str) (sp : list Span) :
  forall previous,
    0 <= previous ->
    match sp with [] => True | b :: _ => previous <= start b end ->
    non_overlapping sp ->
    Forall Span_valid sp ->
    mjoin (text_slices (box x previous sp)) = slice_from x previous.
Proof.
  induction sp as [|a rest IH]; intros previous Hp Hhead Hno Hval.
  - simpl. apply app_nil_r.
  - apply Forall_cons in Hval as [Ha Hrest]. unfold Span_valid in Ha.
    destruct Hno as [Hnext Hno].
    unfold box. simpl. fold box.
    rewrite text_slices_app.
    replace (text_slices (if label && truthy (type a) then _ else _))
      with (@nil str) by (destruct (label && truthy (type a)); done).
    simpl.
    assert (Hrec : mjoin (text_slices (box x (stop a) rest))
                   = slice_from x (stop a)).
    { apply IH; try done. lia. }
    rewrite Hrec, slice_then_rest by lia. apply slice_then_rest. lia.
Qed.
End BoxText.

(** C9, as amended: when the sorted spans do not overlap and none starts
    before offset 0, the slices of the text that [as_html] yields
    concatenate to the text; with two overlapping spans the characters of
    the overlap are yielded twice. *)
Theorem BoxMarkup_as_html_text
    (BACKGROUND : option str -> str) (DARKER EVEN_DARKER : str -> str)
    (YELLOW DARK_YELLOW DARKER_YELLOW : str) (label color : bool) :
  (forall (v : pyval) (sp : list Span),
     Forall Span_valid sp ->
     Forall (fun a => 0 <= start a) sp ->
     non_overlapping (sorted sp) ->
     mjoin (text_slices
              (BoxMarkup_as_html BACKGROUND DARKER EVEN_DARKER
                 YELLOW DARK_YELLOW DARKER_YELLOW label color
                 (Markup_init v sp)))
     = py_str v) /\
  (let sp := [mkSpan 0 3 None; mkSpan 1 4 None] in
   ~ non_overlapping (sorted sp) /\
   mjoin (text_slices
            (BoxMarkup_as_html BACKGROUND DARKER EVEN_DARKER
               YELLOW DARK_YELLOW DARKER_YELLOW label color
               (Markup_init (PyStr (str_of "abcd")) sp)))
   = str_of "abcbcd").
Proof.
  split.
  - intros v sp Hval Hpos Hno.
    destruct (sorted_from_inv [] sp I) as [_ Hperm]. simpl in Hperm.
    fold (sorted sp) in Hperm.
    unfold BoxMarkup_as_html, Markup_init. simpl.
    rewrite box_spans_text; try done.
    + unfold slice_from, clamp. simpl. by rewrite Z.min_l by (unfold len; lia).
    + destruct (sorted sp) as [|b ?] eqn:E; [done|].
      rewrite <- Hperm in Hpos. by apply Forall_cons in Hpos as [? _].
    + by rewrite Hperm.
  - split.
    + vm_compute. intros [H _]. by apply H.
    + unfold BoxMarkup_as_html. simpl. by destruct label.
Qed.

Lemma BoxMarkup_as_html_text_witness :
  mjoin (text_slices
           (BoxMarkup_as_html (fun _ => str_of "#e3f2fd") id id [] [] []
              false true
              (Markup_init (PyStr (str_of "hello world"))
                 [mkSpan 6 11 (Some (str_of "B"));
                  mkSpan 0 5 (Some (str_of "A"))])))
  = py_str (PyStr (str_of "hello world")).
Proof.
  apply (proj1 (BoxMarkup_as_html_text (fun _ => str_of "#e3f2fd") id id
                  [] [] [] false true) (PyStr (str_of "hello world"))).
  - repeat (constructor; [unfold Span_valid; simpl; lia|]). constructor.
  - repeat (constructor; [simpl; lia|]). constructor.
  - vm_compute. repeat split; discriminate.
Defined.

(** C9, as stated, fails for a span that starts before offset 0: a single
    span is trivially free of overlap, yet the slices around [Span(-1, 2)]
    repeat a part of the text. *)
Lemma BoxMarkup_as_html_negative_start :
  let doc := Markup_init (PyStr (str_of "hello")) [mkSpan (-1) 2 None] in
  Forall Span_valid (spans doc) /\
  non_overlapping (spans doc) /\
  mjoin (text_slices
           (BoxMarkup_as_html (fun _ => str_of "#e3f2fd") id id [] [] []
              false true doc))
  = str_of "hellllo" /\
  mjoin (text_slices
           (BoxMarkup_as_html (fun _ => str_of "#e3f2fd") id id [] [] []
              false true doc))
  <> text doc.
Proof.
  simpl. split; [|split; [|split]].
  - constructor; [unfold Span_valid; simpl; lia | constructor].
  - vm_compute. done.
  - vm_compute. reflexivity.
  - vm_compute. discriminate.
Qed.

(** ** The line wrapper *)

Lemma hard_folds_lossless (width room : nat) (cur line : str) :
  mjoin (hard_folds width room cur line) = cur ++ line.
Proof.
  revert room cur. induction line as [|c line IH]; intros room cur; simpl.
  - destruct cur; simpl; by rewrite ?app_nil_r.
  - destruct room; simpl; rewrite IH; [done|]. by rewrite <- app_assoc.
Qed.

Lemma hard_wrap_lossless (width : Z) (line : str) :
  mjoin (hard_wrap width line) = line.
Proof. apply hard_folds_lossless. Qed.

Lemma contiguous_app (a b c : Z) (t1 t2 : list (Z * Z * str)) :
  contiguous a t1 b -> contiguous b t2 c -> contiguous a (t1 ++ t2) c.
Proof.
  revert a. induction t1 as [|[[s0 e0] c0] t1 IH]; intros a; simpl.
  - by intros ->.
  - intros (-> & Hlen & Hrest) H2. repeat split; [done|]. by apply IH.
Qed.

Lemma contents_app (t1 t2 : list (Z * Z * str)) :
  contents (t1 ++ t2) = contents t1 ++ contents t2.
Proof. unfold contents. apply bind_app. Qed.

Lemma len_app {A} (x y : list A) : len (x ++ y) = len x + len y.
Proof. unfold len. rewrite length_app. lia. Qed.

Lemma yield_folds_spec (folds : list str) (start : Z) :
  contiguous start (yield_folds start folds).1 (yield_folds start folds).2 /\
  (yield_folds start folds).2 = start + len (mjoin folds) /\
  contents (yield_folds start folds).1 = mjoin folds.
Proof.
  revert start. induction folds as [|fold rest IH]; intros start; simpl.
  - unfold len. simpl. repeat split. lia.
  - destruct (IH (start + len fold)) as (Hc & He & Hs).
    destruct (yield_folds (start + len fold) rest) as [out e]. simpl in *.
    repeat split; try done; [lia| |].
    + rewrite len_app. lia.
    + unfold contents in *. simpl. by rewrite Hs.
Qed.

Lemma splitlines_from_nil (text cur : str) :
  splitlines_from cur text = [] -> cur = [] /\ text = [].
Proof.
  revert cur. induction text as [|c rest IH]; intros cur; simpl.
  - by destruct cur.
  - destruct (is_linebreak c).
    + destruct rest as [|c' rest']; [done|].
      by destruct (bool_decide (c = CR) && bool_decide (c' = LF)).
    + intros [Hcur _]%IH. by destruct cur.
Qed.

Lemma join_splitlines (text cur : str) :
  single_breaks text = true ->
  join_space (splitlines_from cur text) = cur ++ replace_breaks text.
Proof.
  revert cur. induction text as [|c rest IH]; intros cur.
  - intros _. simpl. destruct cur; simpl; by rewrite ?app_nil_r.
  - cbn [single_breaks splitlines_from replace_breaks fmap list_fmap].
    destruct (is_linebreak c) eqn:Hc.
    + destruct rest as [|c' rest']; [done|].
      destruct (bool_decide (c = CR) && bool_decide (c' = LF)); [done|].
      intros Hrest. simpl in Hrest.
      pose proof (IH [] Hrest) as Hjoin.
      destruct (splitlines_from [] (c' :: rest')) as [|l ls] eqn:E.
      { by apply splitlines_from_nil in E as [_ ?]. }
      change (join_space (cur :: l :: ls))
        with (cur ++ SPACE :: join_space (l :: ls)).
      by rewrite Hjoin.
    + intros Hrest. rewrite (IH _ Hrest). by rewrite <- app_assoc.
Qed.

Lemma replace_breaks_len (text : str) : len (replace_breaks text) = len text.
Proof. unfold len, replace_breaks. by rewrite length_fmap. Qed.

Section WrapperProps.
Variable wrap : Z -> str -> list str.
Hypothesis wrap_lossless :
  forall width line, 0 < width -> mjoin (wrap width line) = line.

Lemma wrap_lines_spec (width count : Z) (rest : list str) :
  0 < width ->
  forall index start,
    index + len rest = count ->
    contiguous start (wrap_lines wrap width count index start rest)
               (start + len (join_space rest)) /\
    contents (wrap_lines wrap width count index start rest)
    = join_space rest.
Proof.
  intros Hw. induction rest as [|line rest' IH]; intros index start Hcount.
  - simpl. unfold len. simpl. split; [lia | done].
  - cbn [wrap_lines].
    set (line' := if index <? count - 1 then line ++ [SPACE] else line).
    pose proof (yield_folds_spec (wrap width line') start) as (Hc & He & Hs).
    destruct (yield_folds start (wrap width line')) as [out start'].
    simpl in Hc, He, Hs. rewrite wrap_lossless in He, Hs by done.
    destruct (IH (index + 1) start') as [Hc' Hs'].
    { unfold len in *. simpl in Hcount. lia. }
    assert (Hjoin : join_space (line :: rest') = line' ++ join_space rest').
    { unfold line'. destruct rest' as [|l2 rest2].
      - replace (index <? count - 1) with false
          by (symmetry; apply Z.ltb_ge; unfold len in *; simpl in *; lia).
        simpl. by rewrite app_nil_r.
      - replace (index <? count - 1) with true
          by (symmetry; apply Z.ltb_lt; unfold len in *; simpl in *; lia).
        cbn [join_space]. by rewrite <- app_assoc. }
    rewrite Hjoin, contents_app, Hs, Hs'. split; [|done].
    eapply contiguous_app; [exact Hc|].
    rewrite len_app, Z.add_assoc, <- He. exact Hc'.
Qed.
End WrapperProps.

(** C3, as amended: for a positive width the triples are contiguous from
    offset 0, each range is as long as its content, and the contents
    concatenate to the lines of the text joined by single spaces; when
    every line break of the text is a single character followed by more
    text (no CR LF pair, no line break at the very end), that is the text
    with each line-break character replaced by a space, and the ranges
    cover exactly [0, len(text)). *)
Theorem Wrapper_call_covers
    (wrap : Z -> str -> list str) (width : Z) (x : str) :
  0 < width ->
  (forall w line, 0 < w -> mjoin (wrap w line) = line) ->
  contiguous 0 (Wrapper_call wrap width x) (len (join_space (splitlines x))) /\
  contents (Wrapper_call wrap width x) = join_space (splitlines x) /\
  (single_breaks x = true ->
     contiguous 0 (Wrapper_call wrap width x) (len x) /\
     contents (Wrapper_call wrap width x) = replace_breaks x).
Proof.
  intros Hw Hwrap. unfold Wrapper_call.
  destruct (wrap_lines_spec wrap Hwrap width (len (splitlines x))
              (splitlines x) Hw 0 0) as [Hc Hs]; [lia|].
  rewrite Z.add_0_l in Hc. repeat split; try done.
  - rewrite <- (replace_breaks_len x).
    unfold splitlines in *. by rewrite join_splitlines in Hc.
  - rewrite Hs. unfold splitlines. by rewrite join_splitlines.
Qed.

Lemma Wrapper_call_covers_witness :
  contiguous 0 (Wrapper_call hard_wrap 5 (str_of "ab" ++ [LF] ++ str_of "cdefghijk"))
             (len (str_of "ab" ++ [LF] ++ str_of "cdefghijk")) /\
  contents (Wrapper_call hard_wrap 5 (str_of "ab" ++ [LF] ++ str_of "cdefghijk"))
  = replace_breaks (str_of "ab" ++ [LF] ++ str_of "cdefghijk").
Proof.
  apply (Wrapper_call_covers hard_wrap 5
           (str_of "ab" ++ [LF] ++ str_of "cdefghijk")).
  - lia.
  - intros w line _. apply hard_wrap_lossless.
  - reflexivity.
Defined.

(** C3, as stated, fails on a text that ends with a line break and on a
    text with a CR LF pair: the ranges stop short of [len(text)]. *)
Lemma Wrapper_call_short_of_text :
  Wrapper_call hard_wrap 70 (str_of "ab" ++ [LF]) = [(0, 2, str_of "ab")] /\
  ~ contiguous 0 (Wrapper_call hard_wrap 70 (str_of "ab" ++ [LF]))
               (len (str_of "ab" ++ [LF])) /\
  Wrapper_call hard_wrap 70 (str_of "a" ++ [CR; LF] ++ str_of "b")
  = [(0, 2, str_of "a "); (2, 3, str_of "b")] /\
  ~ contiguous 0 (Wrapper_call hard_wrap 70 (str_of "a" ++ [CR; LF] ++ str_of "b"))
               (len (str_of "a" ++ [CR; LF] ++ str_of "b")).
Proof.
  split; [reflexivity|]. split; [|split; [reflexivity|]].
  - vm_compute. intros (_ & _ & H). discriminate H.
  - vm_compute. intros (_ & _ & _ & _ & H). discriminate H.
Qed.

(** ** Loops *)

Lemma bind_Ok {A} (m : result A) : (x ← m; Ok x) = m.
Proof. by destruct m. Qed.

Lemma for_each_app {A B} (xs ys : list A) (body : B -> A -> result B) acc :
  for_each (xs ++ ys) body acc
  = acc' ← for_each xs body acc; for_each ys body acc'.
Proof.
  revert acc. induction xs as [|x xs IH]; intros acc; simpl; [done|].
  destruct (body acc x); simpl; [apply IH | done].
Qed.

Lemma for_each_ext {A B} (xs : list A) (f g : B -> A -> result B) acc :
  (forall acc x, x ∈ xs -> f acc x = g acc x) ->
  for_each xs f acc = for_each xs g acc.
Proof.
  revert acc. induction xs as [|x xs IH]; intros acc H; simpl; [done|].
  rewrite H by left. destruct (g acc x); simpl; [|done].
  apply IH. intros. apply H. by right.
Qed.

Lemma for_each_bind {A B C} (xs : list A) (f : A -> list C)
    (body : B -> C -> result B) acc :
  for_each (xs ≫= f) body acc
  = for_each xs (fun acc x => for_each (f x) body acc) acc.
Proof.
  revert acc. induction xs as [|x xs IH]; intros acc; simpl; [done|].
  rewrite for_each_app. destruct (for_each (f x) body acc); simpl; [apply IH | done].
Qed.

Lemma for_each_fmap {A B C} (xs : list A) (f : A -> C)
    (body : B -> C -> result B) acc :
  for_each (f <$> xs) body acc = for_each xs (fun acc x => body acc (f x)) acc.
Proof.
  revert acc. induction xs as [|x xs IH]; intros acc; simpl; [done|].
  destruct (body acc (f x)); simpl; [apply IH | done].
Qed.

Lemma paint_dashes_writes (start : Z) (slices : list Multiline) (m : matrix) :
  paint_dashes start slices m = write_all m (dash_writes start slices).
Proof.
  unfold paint_dashes, write_all, dash_writes.
  rewrite for_each_bind. apply for_each_ext. intros m1 slice _.
  rewrite for_each_bind. apply for_each_ext. intros m2 line _.
  rewrite for_each_bind. apply for_each_ext. intros m3 x _.
  simpl. by rewrite bind_Ok.
Qed.

Lemma paint_labels_writes (start width : Z) (slices : list Multiline)
    (m : matrix) :
  paint_labels start width slices m
  = write_all m (label_writes start width slices).
Proof.
  unfold paint_labels, write_all, label_writes.
  rewrite for_each_bind. apply for_each_ext. intros m1 slice _.
  rewrite for_each_bind. apply for_each_ext. intros m2 line _.
  fold (labelled slice line). fold (label_text start width slice line).
  destruct (labelled slice line); [|done].
  rewrite for_each_fmap. apply for_each_ext. by intros m3 [x char] _.
Qed.

(** ** Assignments to the matrix *)

Lemma index_of_in (n i : Z) : 0 <= i < n -> index_of n i = Ok (Z.to_nat i).
Proof.
  intros H. unfold index_of.
  destruct (Z.leb_spec 0 i), (Z.ltb_spec i n); simpl; try lia. done.
Qed.

Lemma matrix_set_spec (height width : Z) (m : matrix) (r c : Z) (ch : ascii) :
  shape height width m -> 0 <= r < height -> 0 <= c < width ->
  exists m', matrix_set m r c ch = Ok m' /\ shape height width m' /\
    forall r' c', 0 <= r' -> 0 <= c' ->
      cell m' r' c'
      = if bool_decide (r' = r /\ c' = c) then Some ch else cell m r' c'.
Proof.
  intros [Hh Hw] Hr Hc. unfold matrix_set.
  rewrite index_of_in by lia. simpl.
  destruct (m !! Z.to_nat r) as [row|] eqn:Erow.
  2:{ apply lookup_ge_None in Erow. unfold len in *. lia. }
  assert (Hrow : len row = width).
  { eapply (proj1 (Forall_lookup _ _) Hw). exact Erow. }
  rewrite index_of_in by lia. simpl. eexists. split; [done|]. split.
  - split; [unfold len in *; by rewrite length_insert|].
    apply Forall_insert; [done|]. unfold len in *. by rewrite length_insert.
  - intros r' c' Hr' Hc'. unfold cell.
    destruct (decide (r' = r)) as [->|Hne].
    + rewrite list_lookup_insert_eq by (unfold len in *; lia). simpl.
      rewrite Erow. simpl.
      destruct (decide (c' = c)) as [->|Hnc].
      * rewrite bool_decide_true by done.
        apply list_lookup_insert_eq. unfold len in *. lia.
      * rewrite bool_decide_false by (intros [_ ?]; done).
        apply list_lookup_insert_ne. lia.
    + rewrite bool_decide_false by (intros [? _]; done).
      rewrite list_lookup_insert_ne by lia. done.
Qed.

Lemma write_all_spec (height width : Z) (ws : list write) :
  Forall (in_bounds height width) ws ->
  forall m, shape height width m ->
  exists m', write_all m ws = Ok m' /\ shape height width m' /\
    forall r c, 0 <= r -> 0 <= c ->
      cell m' r c = match last_write ws r c with
                    | Some ch => Some ch
                    | None => cell m r c
                    end.
Proof.
  induction 1 as [|[[r0 c0] ch] ws [Hr0 Hc0] _ IH]; intros m Hm.
  - exists m. split; [done|]. split; [done|]. by intros.
  - simpl in Hr0, Hc0.
    destruct (matrix_set_spec height width m r0 c0 ch Hm Hr0 Hc0)
      as (m1 & Hset & Hm1 & Hcell1).
    destruct (IH m1 Hm1) as (m' & Hall & Hm' & Hcell).
    exists m'.
    split; [unfold write_all in *; simpl; rewrite Hset; exact Hall|].
    split; [exact Hm'|].
    intros r c Hr Hc. rewrite (Hcell r c Hr Hc). simpl.
    destruct (last_write ws r c); [done|].
    rewrite (Hcell1 r c Hr Hc).
    destruct (decide (r = r0 /\ c = c0)) as [[-> ->]|Hne].
    + by rewrite !bool_decide_true.
    + rewrite !bool_decide_false; [done| |done]. intros [-> ->]. by apply Hne.
Qed.

Lemma last_write_Some (ws : list write) (r c : Z) (ch : ascii) :
  last_write ws r c = Some ch -> (r, c, ch) ∈ ws.
Proof.
  induction ws as [|[[r0 c0] ch0] ws IH]; simpl; [done|].
  destruct (last_write ws r c) as [later|].
  - intros [= ->]. right. by apply IH.
  - case_bool_decide as Hd; [|done]. destruct Hd as [-> ->].
    intros [= ->]. left.
Qed.

Lemma last_write_None (ws : list write) (r c : Z) :
  last_write ws r c = None -> forall ch, (r, c, ch) ∉ ws.
Proof.
  induction ws as [|[[r0 c0] ch0] ws IH]; simpl; intros H ch Hin.
  - by apply elem_of_nil in Hin.
  - destruct (last_write ws r c) as [later|]; [done|].
    case_bool_decide as Hd; [done|].
    apply elem_of_cons in Hin as [[= -> -> ->]|Hin]; [by apply Hd|].
    by apply (IH eq_refl ch).
Qed.

Lemma blank_shape (height width : Z) :
  0 <= height -> 0 <= width -> shape height width (blank height width).
Proof.
  intros Hh Hw. unfold shape, blank, len. rewrite length_replicate.
  split; [lia|]. apply Forall_replicate. rewrite length_replicate. lia.
Qed.

Lemma blank_cell (height width r c : Z) :
  0 <= r < height -> 0 <= c < width ->
  cell (blank height width) r c = Some SPACE.
Proof.
  intros Hr Hc. unfold cell, blank.
  rewrite lookup_replicate_2 by lia. simpl.
  apply lookup_replicate_2. lia.
Qed.

(** ** The layout engine *)

Lemma first_free_ge (fuel : nat) (n : Z) (used : list Z) :
  n <= first_free fuel n used.
Proof.
  revert n. induction fuel as [|fuel IH]; intros n; simpl; [lia|].
  case_bool_decide; [|lia]. specialize (IH (n + 1)). lia.
Qed.

Lemma assign_levels_ok (sp : list Span) :
  Forall Span_valid sp ->
  forall active, Forall row_ok (assign_levels active sp).
Proof.
  induction 1 as [|a sp Ha _ IH]; intros active; simpl; constructor.
  - split; simpl; [apply first_free_ge | exact Ha].
  - apply IH.
Qed.

Lemma group_rows_ok (rows : list Line) :
  Forall row_ok rows ->
  forall cur, lines cur <> [] -> Forall row_ok (lines cur) ->
    layout_ok (group_rows cur rows).
Proof.
  induction 1 as [|r rows Hr _ IH]; intros cur Hne Hcur; simpl.
  - by repeat constructor.
  - destruct (line_start r <? multi_stop cur).
    + apply IH; simpl; [by destruct (lines cur) | ].
      apply Forall_app. split; [done | by constructor].
    + constructor; [done|]. apply IH; simpl; [done | by constructor].
Qed.

Lemma get_multilines_ok (sp : list Span) :
  Forall Span_valid sp -> layout_ok (get_multilines sp).
Proof.
  intros H. unfold get_multilines.
  pose proof (assign_levels_ok sp H []) as Hrows.
  destruct (assign_levels [] sp) as [|r rest]; [constructor|].
  apply Forall_cons in Hrows as [Hr Hrest].
  apply group_rows_ok; simpl; [done | done | by constructor].
Qed.

Lemma sorted_perm (sp : list Span) : sorted sp ≡ₚ sp.
Proof. apply (sorted_from_inv [] sp I). Qed.

Lemma constructed_layout_ok (v : pyval) (sp : list Span) :
  Forall Span_valid sp -> layout_ok (multilines (Markup_init v sp)).
Proof.
  intros H. simpl. apply get_multilines_ok. by rewrite sorted_perm.
Qed.

(** ** The slices of a line *)

Lemma select_slices_spec (start stop : Z) (rest : list Multiline) :
  forall index,
    Forall (fun slice =>
              exists multi, multi ∈ rest /\ multi_start multi < stop /\
                slice = mkMultiline (Z.max (multi_start multi) start)
                                    (Z.min (multi_stop multi) stop)
                                    (lines multi))
           (select_slices start stop rest index).1.
Proof.
  induction rest as [|multi rest IH]; intros index; simpl; [constructor|].
  destruct (Z.geb_spec (multi_start multi) stop); [constructor|].
  assert (Hhead : exists multi0, multi0 ∈ multi :: rest /\
            multi_start multi0 < stop /\
            mkMultiline (Z.max (multi_start multi) start)
                        (Z.min (multi_stop multi) stop) (lines multi)
            = mkMultiline (Z.max (multi_start multi0) start)
                          (Z.min (multi_stop multi0) stop) (lines multi0)).
  { exists multi. split; [left | done]. }
  destruct (multi_stop multi <=? stop).
  - specialize (IH (S index)).
    destruct (select_slices start stop rest (S index)) as [slices index'].
    simpl in *. constructor; [done|].
    eapply Forall_impl; [exact IH|]. intros slice (m0 & Hin & Hlt & ->).
    exists m0. split; [by right | done].
  - simpl. by repeat constructor.
Qed.

Lemma select_slices_fits (ms : list Multiline) (index : nat)
    (start stop : Z) :
  layout_ok ms -> start <= stop ->
  Forall (fits start stop) (select_slices start stop (drop index ms) index).1.
Proof.
  intros Hok Hle.
  eapply Forall_impl; [apply select_slices_spec|].
  intros slice (multi & Hin & Hlt & ->).
  assert (Hms : multi ∈ ms).
  { apply list_elem_of_lookup in Hin as [i Hi].
    rewrite lookup_drop in Hi. by eapply list_elem_of_lookup_2. }
  destruct (proj1 (Forall_forall _ _) Hok multi Hms) as [Hne Hrows].
  unfold fits. simpl. repeat split; try done; lia.
Qed.

(** ** One wrapped line *)

Lemma elem_of_range (a b x : Z) : x ∈ range a b <-> a <= x < b.
Proof.
  unfold range. rewrite list_elem_of_fmap. split.
  - intros (i & -> & Hi%elem_of_seq). lia.
  - intros H. exists (Z.to_nat (x - a)). split; [lia|].
    apply elem_of_seq. lia.
Qed.

Lemma elem_of_enumerate {A} (xs : list A) (i : Z) (x : A) :
  (i, x) ∈ enumerate xs <-> 0 <= i /\ xs !! Z.to_nat i = Some x.
Proof.
  unfold enumerate. rewrite elem_of_lookup_imap. split.
  - intros (n & y & [= -> ->] & Hy). split; [lia|]. by rewrite Nat2Z.id.
  - intros [Hi Hx]. exists (Z.to_nat i), x. split; [|done]. f_equal. lia.
Qed.

Lemma py_max_spec (xs : list Z) :
  xs <> [] ->
  exists top, py_max xs = Ok top /\ top ∈ xs /\ forall x, x ∈ xs -> x <= top.
Proof.
  destruct xs as [|x xs]; [done|]. intros _. simpl. eexists. split; [done|].
  induction xs as [|y xs [Hin Hle]]; simpl.
  - split; [left|]. intros z ->%list_elem_of_singleton. lia.
  - split.
    + destruct (Z.max_spec y (foldr Z.max x xs)) as [[_ ->]|[_ ->]].
      * apply elem_of_cons in Hin as [->|Hin]; [left | right; by right].
      * right. left.
    + intros z Hz. apply elem_of_cons in Hz as [->|Hz].
      * specialize (Hle x ltac:(left)). lia.
      * apply elem_of_cons in Hz as [->|Hz]; [lia|].
        specialize (Hle z ltac:(by right)). lia.
Qed.

Lemma elem_of_dash_writes (start : Z) (slices : list Multiline) (r c : Z)
    (ch : ascii) :
  (r, c, ch) ∈ dash_writes start slices <->
  ch = DASH /\
  exists slice row, slice ∈ slices /\ row ∈ lines slice /\ level row = r /\
    multi_start slice <= start + c < multi_stop slice.
Proof.
  unfold dash_writes. rewrite list_elem_of_bind. split.
  - intros (slice & Hin & Hslice).
    apply list_elem_of_bind in Hin as (row & Hin & Hrow).
    apply list_elem_of_bind in Hin as (x & Hin & Hx%elem_of_range).
    apply list_elem_of_singleton in Hin as [= -> -> ->].
    split; [done|]. exists slice, row. repeat split; try done; lia.
  - intros (-> & slice & row & Hslice & Hrow & <- & Hc).
    exists slice. split; [|done]. apply list_elem_of_bind.
    exists row. split; [|done]. apply list_elem_of_bind.
    exists (start + c). split; [|by apply elem_of_range].
    apply list_elem_of_singleton. do 2 f_equal. lia.
Qed.

Lemma elem_of_label_writes (start width : Z) (slices : list Multiline)
    (r c : Z) (ch : ascii) :
  (r, c, ch) ∈ label_writes start width slices <->
  exists slice row, slice ∈ slices /\ row ∈ lines slice /\
    labelled slice row = true /\ level row = r /\
    0 <= c - (multi_start slice - start) /\
    label_text start width slice row
      !! Z.to_nat (c - (multi_start slice - start)) = Some ch.
Proof.
  unfold label_writes. rewrite list_elem_of_bind. split.
  - intros (slice & Hin & Hslice).
    apply list_elem_of_bind in Hin as (row & Hin & Hrow).
    destruct (labelled slice row) eqn:Hl; [|by apply elem_of_nil in Hin].
    apply list_elem_of_fmap in Hin as ([x char] & [= -> -> ->] & Hx).
    apply elem_of_enumerate in Hx as [Hx Hchar].
    exists slice, row. repeat split; try done; [lia|].
    by replace (multi_start slice - start + x - (multi_start slice - start))
      with x by lia.
  - intros (slice & row & Hslice & Hrow & Hl & <- & Hc & Hch).
    exists slice. split; [|done]. apply list_elem_of_bind.
    exists row. split; [|done]. rewrite Hl. apply list_elem_of_fmap.
    exists (c - (multi_start slice - start), ch). split.
    + do 2 f_equal. lia.
    + by apply elem_of_enumerate.
Qed.

Lemma slice_to_take {A} (x : list A) (n : Z) :
  0 <= n -> slice_to x n = take (Z.to_nat n) x.
Proof.
  intros Hn. unfold slice_to, clamp.
  destruct (Z.ltb_spec n 0); [lia|].
  destruct (Z.le_gt_cases n (len x)).
  - by rewrite Z.min_l.
  - rewrite Z.min_r by lia. unfold len in *.
    rewrite !take_ge; [done | lia | lia].
Qed.

Lemma label_text_take (start stop : Z) (slice : Multiline) (row : Line) :
  fits start stop slice -> row ∈ lines slice ->
  label_text start (stop - start) slice row
  = take (Z.to_nat (Z.min (line_stop row - line_start row)
                          (stop - multi_start slice)))
         (default [] (line_type row)).
Proof.
  intros (Hs & Hs' & _ & _ & Hrows) Hrow.
  destruct (proj1 (Forall_forall _ _) Hrows row Hrow) as [_ Hvalid].
  unfold label_text.
  replace (stop - start - (multi_start slice - start))
    with (stop - multi_start slice) by lia.
  apply slice_to_take. lia.
Qed.

Lemma dash_writes_in_bounds (start stop top : Z) (slices : list Multiline) :
  Forall (fits start stop) slices ->
  (forall slice row, slice ∈ slices -> row ∈ lines slice -> level row <= top) ->
  Forall (in_bounds (top + 1) (stop - start)) (dash_writes start slices).
Proof.
  intros Hfits Htop. apply Forall_forall. intros [[r c] ch] Hin.
  apply elem_of_dash_writes in Hin as (_ & slice & row & Hs & Hr & <- & Hc).
  destruct (proj1 (Forall_forall _ _) Hfits slice Hs)
    as (H1 & H2 & H3 & _ & Hrows).
  destruct (proj1 (Forall_forall _ _) Hrows row Hr) as [Hlevel _].
  specialize (Htop slice row Hs Hr). unfold in_bounds. simpl. lia.
Qed.

Lemma label_writes_in_bounds (start stop top : Z) (slices : list Multiline) :
  Forall (fits start stop) slices ->
  (forall slice row, slice ∈ slices -> row ∈ lines slice -> level row <= top) ->
  Forall (in_bounds (top + 1) (stop - start))
         (label_writes start (stop - start) slices).
Proof.
  intros Hfits Htop. apply Forall_forall. intros [[r c] ch] Hin.
  apply elem_of_label_writes in Hin
    as (slice & row & Hs & Hr & _ & <- & Hc & Hch).
  pose proof (proj1 (Forall_forall _ _) Hfits slice Hs) as Hfit.
  rewrite (label_text_take start stop slice row Hfit Hr) in Hch.
  destruct Hfit as (H1 & H2 & H3 & _ & Hrows).
  destruct (proj1 (Forall_forall _ _) Hrows row Hr) as [Hlevel Hvalid].
  apply lookup_lt_Some in Hch. rewrite length_take in Hch.
  specialize (Htop slice row Hs Hr). unfold in_bounds. simpl. lia.
Qed.

Lemma annotate_spec (start stop : Z) (line : str) (slices : list Multiline) :
  stop - start = len line -> slices <> [] ->
  Forall (fits start stop) slices ->
  exists top dm m,
    py_max (slice ← slices; level <$> lines slice) = Ok top /\
    (exists slice row, slice ∈ slices /\ row ∈ lines slice /\ level row = top) /\
    (forall slice row, slice ∈ slices -> row ∈ lines slice -> level row <= top) /\
    paint_dashes start slices (blank (top + 1) (len line)) = Ok dm /\
    paint_labels start (len line) slices dm = Ok m /\
    annotate start line slices = Ok m /\
    shape (top + 1) (len line) dm /\
    shape (top + 1) (len line) m /\
    forall r c, 0 <= r < top + 1 -> 0 <= c < len line ->
      cell dm r c = match last_write (dash_writes start slices) r c with
                    | Some ch => Some ch
                    | None => Some SPACE
                    end /\
      cell m r c
      = match last_write (label_writes start (len line) slices) r c with
        | Some ch => Some ch
        | None => cell dm r c
        end.
Proof.
  intros Hlen Hne Hfits.
  assert (Hlevels : (slice ← slices; level <$> lines slice) <> []).
  { destruct slices as [|slice rest]; [done|].
    apply Forall_cons in Hfits as [(_ & _ & _ & Hrows & _) _].
    simpl. destruct (lines slice); [done|]. simpl. done. }
  destruct (py_max_spec _ Hlevels) as (top & Hmax & Hin & Hle).
  assert (Hattained : exists slice row,
             slice ∈ slices /\ row ∈ lines slice /\ level row = top).
  { apply list_elem_of_bind in Hin as (slice & Hin & Hslice).
    apply list_elem_of_fmap in Hin as (row & -> & Hrow). by exists slice, row. }
  assert (Htop : forall slice row,
             slice ∈ slices -> row ∈ lines slice -> level row <= top).
  { intros slice row Hs Hr. apply Hle. apply list_elem_of_bind.
    exists slice. split; [|done]. by apply list_elem_of_fmap_2. }
  assert (Htop0 : 0 <= top).
  { destruct Hattained as (slice & row & Hs & Hr & <-).
    destruct (proj1 (Forall_forall _ _) Hfits slice Hs) as (_ & _ & _ & _ & Hrows).
    by destruct (proj1 (Forall_forall _ _) Hrows row Hr). }
  assert (Hwidth : 0 <= len line) by (unfold len; lia).
  pose proof (blank_shape (top + 1) (len line) ltac:(lia) Hwidth) as Hblank.
  pose proof (dash_writes_in_bounds start stop top slices Hfits Htop) as Hdb.
  pose proof (label_writes_in_bounds start stop top slices Hfits Htop) as Hlb.
  rewrite Hlen in Hdb, Hlb.
  destruct (write_all_spec _ _ _ Hdb _ Hblank) as (dm & Hdm & Hshape & Hcell).
  destruct (write_all_spec _ _ _ Hlb _ Hshape) as (m & Hm & Hshape' & Hcell').
  rewrite <- paint_dashes_writes in Hdm. rewrite <- paint_labels_writes in Hm.
  exists top, dm, m. repeat split; try done; try apply Hshape; try apply Hshape'.
  - unfold annotate. destruct slices; [done|]. rewrite Hmax. simpl.
    fold (blank (top + 1) (len line)). rewrite Hdm. simpl. rewrite Hm. done.
  - rewrite Hcell by lia. by rewrite blank_cell.
  - apply Hcell'; lia.
Qed.

(** ** All the wrapped lines *)

Lemma yield_folds_len (folds : list str) (start : Z) :
  Forall (fun t : Z * Z * str => t.1.2 - t.1.1 = len t.2)
         (yield_folds start folds).1.
Proof.
  revert start. induction folds as [|fold rest IH]; intros start; simpl.
  - constructor.
  - specialize (IH (start + len fold)).
    destruct (yield_folds (start + len fold) rest) as [out e]. simpl in *.
    constructor; [simpl; lia | done].
Qed.

Lemma wrap_lines_len (wrap : Z -> str -> list str) (width count : Z)
    (rest : list str) :
  forall index start,
    Forall (fun t : Z * Z * str => t.1.2 - t.1.1 = len t.2)
           (wrap_lines wrap width count index start rest).
Proof.
  induction rest as [|line rest IH]; intros index start; simpl.
  - constructor.
  - set (line' := if index <? count - 1 then line ++ [SPACE] else line).
    pose proof (yield_folds_len (wrap width line') start) as H.
    destruct (yield_folds start (wrap width line')) as [out start'].
    apply Forall_app. split; [done | apply IH].
Qed.

Lemma Wrapper_call_len (wrap : Z -> str -> list str) (width : Z) (x : str) :
  Forall (fun t : Z * Z * str => t.1.2 - t.1.1 = len t.2)
         (Wrapper_call wrap width x).
Proof. apply wrap_lines_len. Qed.

Lemma matrix_set_widths (n : nat) (m m' : matrix) (r c : Z) (ch : ascii) :
  Forall (fun row => length row = n) m ->
  matrix_set m r c ch = Ok m' ->
  Forall (fun row => length row = n) m'.
Proof.
  intros Hm. unfold matrix_set.
  destruct (index_of (len m) r) as [i|]; simpl; [|done].
  destruct (m !! i) as [row|] eqn:Erow; [|done].
  destruct (index_of (len row) c) as [j|]; simpl; [|done].
  intros [= <-]. apply Forall_insert; [done|]. rewrite length_insert.
  eapply (proj1 (Forall_lookup _ _) Hm). exact Erow.
Qed.

Lemma write_all_widths (n : nat) (ws : list write) :
  forall m m', Forall (fun row => length row = n) m ->
    write_all m ws = Ok m' -> Forall (fun row => length row = n) m'.
Proof.
  unfold write_all.
  induction ws as [|[[r c] ch] ws IH]; intros m m' Hm; simpl.
  - by intros [= <-].
  - destruct (matrix_set m r c ch) as [m1|] eqn:E; simpl; [|done].
    apply IH. by eapply matrix_set_widths.
Qed.

Lemma annotate_widths (start : Z) (line : str) (slices : list Multiline)
    (rows : list str) :
  annotate start line slices = Ok rows ->
  Forall (fun row => length row = length line) rows.
Proof.
  unfold annotate. destruct slices as [|slice rest]; [by intros [= <-]|].
  destruct (py_max _) as [top|]; simpl; [|done].
  rewrite paint_dashes_writes.
  destruct (write_all _ (dash_writes _ _)) as [dm|] eqn:Edm; simpl; [|done].
  rewrite paint_labels_writes.
  destruct (write_all dm _) as [m|] eqn:Em; simpl; [|done].
  intros [= <-].
  eapply write_all_widths; [|exact Em].
  eapply write_all_widths; [|exact Edm].
  apply Forall_replicate. rewrite length_replicate. unfold len. lia.
Qed.

Lemma ascii_blocks_aligned (ms : list Multiline)
    (wrapped : list (Z * Z * str)) :
  forall index blocks,
    ascii_blocks ms index wrapped = Ok blocks -> aligned blocks.
Proof.
  induction wrapped as [|[[start stop] line] rest IH]; intros index blocks;
    simpl.
  - intros [= <-]. constructor.
  - destruct (select_slices start stop (drop index ms) index)
      as [slices index'].
    destruct (annotate start line slices) as [rows|] eqn:Erows; simpl; [|done].
    destruct (ascii_blocks ms index' rest) as [blocks'|] eqn:Erest; simpl;
      [|done].
    intros [= <-]. constructor; [|by eapply IH]. simpl.
    unfold replace_tab. rewrite length_fmap. by eapply annotate_widths.
Qed.

Lemma ascii_blocks_total (ms : list Multiline)
    (wrapped : list (Z * Z * str)) :
  layout_ok ms ->
  Forall (fun t : Z * Z * str => t.1.2 - t.1.1 = len t.2) wrapped ->
  forall index, exists blocks, ascii_blocks ms index wrapped = Ok blocks.
Proof.
  intros Hok. induction 1 as [|[[start stop] line] rest Hlen _ IH];
    intros index; simpl.
  - by eexists.
  - simpl in Hlen.
    pose proof (select_slices_fits ms index start stop Hok
                  ltac:(unfold len in *; lia)) as Hfits.
    destruct (select_slices start stop (drop index ms) index)
      as [slices index']. simpl in Hfits.
    destruct (IH index') as [blocks Hblocks]. rewrite Hblocks.
    destruct slices as [|slice slices].
    + simpl. by eexists.
    + destruct (annotate_spec start stop line (slice :: slices) Hlen
                  ltac:(done) Hfits) as (top & dm & m & _ & _ & _ & _ & _ & Hm & _).
      rewrite Hm. simpl. by eexists.
Qed.

(** ** The ASCII renderer *)

(** C6: for a document constructed from valid spans and a positive width,
    draining [as_ascii] raises nothing, and on every wrapped line every
    assignment of the dash and label loops has its row within the height
    and its column within the length of the line. *)
Theorem as_ascii_total (wrap : Z -> str -> list str)
    (v : pyval) (sp : list Span) (width : Z) :
  0 < width -> Forall Span_valid sp ->
  let self := AsciiMarkup_init v sp width in
  (exists out, as_ascii wrap self = Ok out) /\
  forall start stop line index,
    (start, stop, line) ∈ Wrapper_call wrap width (text (markup self)) ->
    let slices :=
      (select_slices start stop
         (drop index (multilines (markup self))) index).1 in
    slices <> [] ->
    exists top rows,
      py_max (slice ← slices; level <$> lines slice) = Ok top /\
      annotate start line slices = Ok rows /\
      Forall (in_bounds (top + 1) (len line))
             (dash_writes start slices ++ label_writes start (len line) slices).
Proof.
  intros Hw Hval self.
  pose proof (constructed_layout_ok v sp Hval) as Hok.
  pose proof (Wrapper_call_len wrap width (text (markup self))) as Hlen.
  split.
  - destruct (ascii_blocks_total (multilines (markup self))
                (Wrapper_call wrap (wrapper_width self) (text (markup self)))
                Hok Hlen 0%nat) as [blocks Hblocks].
    unfold as_ascii, as_ascii_blocks. rewrite Hblocks. simpl. by eexists.
  - intros start stop line index Hin slices Hne.
    pose proof (proj1 (Forall_forall _ _) Hlen _ Hin) as Hl. simpl in Hl.
    pose proof (select_slices_fits _ index start stop Hok
                  ltac:(unfold len in *; lia)) as Hfits.
    fold slices in Hfits.
    destruct (annotate_spec start stop line slices Hl Hne Hfits)
      as (top & dm & m & Hmax & _ & Htop & _ & _ & Hm & _).
    exists top, m. split; [done|]. split; [done|].
    apply Forall_app. rewrite <- Hl. split.
    + by apply dash_writes_in_bounds.
    + by apply label_writes_in_bounds.
Qed.

Lemma as_ascii_total_witness :
  exists out,
    as_ascii hard_wrap
      (AsciiMarkup_init (PyStr (str_of "abcdefghijkl"))
         [mkSpan 3 10 (Some (str_of "LOC")); mkSpan 0 4 None] 5) = Ok out.
Proof.
  apply (as_ascii_total hard_wrap (PyStr (str_of "abcdefghijkl"))
           [mkSpan 3 10 (Some (str_of "LOC")); mkSpan 0 4 None] 5).
  - lia.
  - repeat (constructor; [unfold Span_valid; simpl; lia|]). constructor.
Defined.

(** C8: whatever the groups are, every annotation row yielded for a
    wrapped line is exactly as long as the content yielded for that line;
    and for a document constructed from valid spans the lines are
    yielded. *)
Theorem annotation_rows_aligned (wrap : Z -> str -> list str) :
  (forall self blocks,
     as_ascii_blocks wrap self = Ok blocks ->
     aligned blocks /\
     as_ascii wrap self = Ok (block ← blocks; block.1 :: block.2)) /\
  (forall v sp width,
     0 < width -> Forall Span_valid sp ->
     exists blocks,
       as_ascii_blocks wrap (AsciiMarkup_init v sp width) = Ok blocks /\
       aligned blocks).
Proof.
  split.
  - intros self blocks H. split.
    + by eapply ascii_blocks_aligned.
    + unfold as_ascii. by rewrite H.
  - intros v sp width Hw Hval.
    destruct (ascii_blocks_total _ _ (constructed_layout_ok v sp Hval)
                (Wrapper_call_len wrap width (py_str v)) 0%nat)
      as [blocks Hblocks].
    exists blocks. split; [exact Hblocks|]. by eapply ascii_blocks_aligned.
Qed.

Lemma annotation_rows_aligned_witness :
  aligned [(str_of "abcde", [str_of "   LO"]);
           (str_of "fghij", [str_of "-----"]);
           (str_of "kl", [])].
Proof.
  apply (proj1 (annotation_rows_aligned hard_wrap)
           (AsciiMarkup_init (PyStr (str_of "abcdefghijkl"))
              [mkSpan 3 10 (Some (str_of "LOC"))] 5)).
  vm_compute. reflexivity.
Defined.

(** ** The renderer on groups per chunk *)

(** ** The specification's rows of a line *)

Lemma elem_of_surviving (start stop : Z) (ms : list Multiline)
    (row : Line) (a b : Z) :
  (row, a, b) ∈ surviving start stop ms <->
  exists multi, multi ∈ ms /\ row ∈ lines multi /\
    a = Z.max (line_start row) start /\ b = Z.min (line_stop row) stop /\
    a < b.
Proof.
  unfold surviving. rewrite list_elem_of_bind. split.
  - intros (multi & Hin & Hm).
    apply list_elem_of_bind in Hin as (row' & Hin & Hrow).
    case_bool_decide as Hab; [|by apply elem_of_nil in Hin].
    apply list_elem_of_singleton in Hin as [= -> -> ->]. by exists multi.
  - intros (multi & Hm & Hrow & -> & -> & Hab).
    exists multi. split; [|done]. apply list_elem_of_bind.
    exists row. split; [|done].
    rewrite bool_decide_true by done. by apply list_elem_of_singleton.
Qed.

Lemma spec_dash_true (start stop : Z) (ms : list Multiline) (r c : Z) :
  spec_dash start stop ms r c = true <->
  exists row a b, (row, a, b) ∈ surviving start stop ms /\
    level row = r /\ a <= start + c < b.
Proof.
  unfold spec_dash. rewrite existsb_exists. split.
  - intros ([[row a] b] & Hin%list_elem_of_In & Hd%bool_decide_eq_true).
    by exists row, a, b.
  - intros (row & a & b & Hin & Hd). exists (row, a, b).
    split; [by apply list_elem_of_In | by apply bool_decide_eq_true].
Qed.

Lemma elem_of_spec_labelled (start stop : Z) (ms : list Multiline)
    (row : Line) (a b : Z) :
  (row, a, b) ∈ spec_labelled start stop ms <->
  truthy (line_type row) = true /\ a = line_start row /\
  (row, a, b) ∈ surviving start stop ms.
Proof.
  unfold spec_labelled. rewrite list_elem_of_filter. tauto.
Qed.

(** ** The scan over the groups *)

Lemma groups_from_starts (ms : list Multiline) :
  forall previous,
    groups_from previous ms ->
    Forall (fun multi => previous <= multi_start multi) ms.
Proof.
  induction ms as [|multi rest IH]; intros previous; simpl; [constructor|].
  intros (H1 & H2 & Hrest). constructor; [done|].
  eapply Forall_impl; [by apply IH|]. simpl. intros. lia.
Qed.

Lemma pending_in_order (start : Z) (rest : list Multiline) :
  pending start rest -> in_order rest.
Proof. destruct rest; simpl; [done|]. by intros (_ & ? & ?). Qed.

Lemma groups_from_stops (start : Z) (rest : list Multiline) :
  forall previous, start < previous -> groups_from previous rest ->
    Forall (fun multi => start < multi_stop multi) rest.
Proof.
  induction rest as [|multi rest IH]; intros previous Hlt Hp; [constructor|].
  destruct Hp as (H1 & H2 & Hrest). constructor; [lia|].
  apply (IH (multi_stop multi)); [lia | done].
Qed.

Lemma pending_stops (start : Z) (rest : list Multiline) :
  pending start rest ->
  Forall (fun multi => start < multi_stop multi) rest.
Proof.
  destruct rest as [|multi rest]; simpl; [constructor|].
  intros (H1 & H2 & Hrest). constructor; [done|].
  by apply (groups_from_stops start rest (multi_stop multi)).
Qed.

Lemma in_order_pending (ms : list Multiline) (start : Z) :
  in_order ms -> Forall (fun multi => start < multi_stop multi) ms ->
  pending start ms.
Proof.
  destruct ms as [|multi rest]; simpl; [done|].
  intros [? ?] [? _]%Forall_cons. done.
Qed.

Lemma select_slices_scan (start stop : Z) (rest : list Multiline) :
  forall index, in_order rest ->
    exists n k : nat,
      (select_slices start stop rest index).1
      = reslice start stop <$> take n rest /\
      (select_slices start stop rest index).2 = (index + k)%nat /\
      Forall (fun multi => multi_start multi < stop) (take n rest) /\
      Forall (fun multi => stop <= multi_start multi) (drop n rest) /\
      Forall (fun multi => multi_stop multi <= stop) (take k rest) /\
      pending stop (drop k rest).
Proof.
  induction rest as [|multi rest IH]; intros index Hord.
  - exists 0%nat, 0%nat. simpl. repeat split; try constructor. lia.
  - destruct Hord as (H2 & Hrest). simpl.
    destruct (Z.geb_spec (multi_start multi) stop) as [Hge|Hlt].
    + exists 0%nat, 0%nat. simpl.
      repeat split; try done; try constructor; try lia.
      eapply Forall_impl; [by apply groups_from_starts|]. simpl. intros. lia.
    + destruct (Z.leb_spec (multi_stop multi) stop) as [Hle|Hgt].
      * destruct (IH (S index)) as (n & k & Hs & Hi & Hin & Hout & Hk & Hp).
        { destruct rest as [|m2 rest2]; simpl in *; [done|].
          by destruct Hrest as (? & ? & ?). }
        destruct (select_slices start stop rest (S index))
          as [slices index'] eqn:E. simpl in *.
        exists (S n), (S k). simpl. repeat split; try done; try lia.
        -- by rewrite Hs.
        -- by constructor.
        -- by constructor.
      * exists 1%nat, 0%nat. simpl. rewrite take_0, drop_0.
        repeat split; try done; try constructor; try lia; try constructor.
        eapply Forall_impl; [by apply groups_from_starts|]. simpl. intros. lia.
Qed.

(** ** One line, on groups per chunk *)

Section OneLine.
Variable ms : list Multiline.
Variables start stop : Z.
Variable line : str.
Variable selected : list Multiline.

Hypothesis Hok : layout_ok ms.
Hypothesis Hspan : rows_span ms.
Hypothesis Hcov : rows_covered ms.
Hypothesis Hline : start < stop.
Hypothesis Hlen : stop - start = len line.
Hypothesis Hsel_in : forall multi,
  multi ∈ selected -> multi ∈ ms /\ multi_start multi < stop.
Hypothesis Hsel_all : forall multi,
  multi ∈ ms -> multi_start multi < stop -> start < multi_stop multi ->
  multi ∈ selected.

Let slices := reslice start stop <$> selected.

Lemma selected_rows (multi : Multiline) (row : Line) :
  multi ∈ selected -> row ∈ lines multi ->
  multi ∈ ms /\ multi_start multi < stop /\
  line_start row <= multi_start multi /\ multi_stop multi <= line_stop row /\
  0 <= level row /\ line_start row < line_stop row.
Proof.
  intros (Hm & H1)%Hsel_in Hrow.
  destruct (Hspan multi row Hm Hrow) as [H3 H4].
  destruct (proj1 (Forall_forall _ _) Hok multi Hm) as [_ Hrows].
  destruct (proj1 (Forall_forall _ _) Hrows row Hrow) as [H5 H6].
  done.
Qed.

Lemma slices_fit : Forall (fits start stop) slices.
Proof.
  apply Forall_fmap, Forall_forall. intros multi Hin.
  pose proof (Hsel_in multi Hin) as (Hm & H1).
  destruct (proj1 (Forall_forall _ _) Hok multi Hm) as [Hne Hrows].
  unfold fits. simpl. repeat split; try done; lia.
Qed.

Lemma painted_iff (r c : Z) :
  (exists slice row, slice ∈ slices /\ row ∈ lines slice /\ level row = r /\
     multi_start slice <= start + c < multi_stop slice) <->
  spec_dash start stop ms r c = true.
Proof.
  rewrite spec_dash_true. split.
  - intros (slice & row & Hs & Hrow & Hr & Hc).
    apply list_elem_of_fmap in Hs as (multi & -> & Hm). simpl in Hrow, Hc.
    destruct (selected_rows multi row Hm Hrow)
      as (Hin & H1 & H3 & H4 & _ & _).
    exists row, (Z.max (line_start row) start), (Z.min (line_stop row) stop).
    split; [|split; [done | lia]].
    apply elem_of_surviving. exists multi. repeat split; try done. lia.
  - intros (row & a & b & Hin & Hr & Hc).
    apply elem_of_surviving in Hin as (multi & Hm & Hrow & -> & -> & Hab).
    destruct (Hcov multi row (start + c) Hm Hrow ltac:(lia))
      as (multi' & Hm' & Hrow' & Hp).
    exists (reslice start stop multi'), row. simpl.
    split; [|split; [done | split; [done | lia]]].
    apply list_elem_of_fmap_2, Hsel_all; [done | lia | lia].
Qed.

Lemma levels_selected (l : Z) :
  l ∈ (fun '(row, _, _) => level row) <$> surviving start stop ms ->
  l ∈ (slice ← slices; level <$> lines slice).
Proof.
  rewrite list_elem_of_bind, list_elem_of_fmap.
  intros ([[row a] b] & -> & Hin).
  apply elem_of_surviving in Hin as (multi & Hm & Hrow & -> & -> & Hab).
  destruct (Hcov multi row (Z.max (line_start row) start) Hm Hrow
              ltac:(lia)) as (multi' & Hm' & Hrow' & Hp).
  exists (reslice start stop multi'). simpl.
  split; [by apply list_elem_of_fmap_2|].
  apply list_elem_of_fmap_2, Hsel_all; [done | lia | lia].
Qed.

Lemma levels_surviving (l : Z) :
  rows_stop_after start selected ->
  l ∈ (slice ← slices; level <$> lines slice) ->
  l ∈ (fun '(row, _, _) => level row) <$> surviving start stop ms.
Proof.
  intros Hmeet. rewrite list_elem_of_bind, list_elem_of_fmap.
  intros (slice & Hl & Hs).
  apply list_elem_of_fmap in Hs as (multi & -> & Hm). simpl in Hl.
  apply list_elem_of_fmap in Hl as (row & -> & Hrow).
  pose proof (Hmeet multi row Hm Hrow) as H2.
  destruct (selected_rows multi row Hm Hrow)
    as (Hin & H1 & H3 & H4 & _ & H6).
  exists (row, Z.max (line_start row) start, Z.min (line_stop row) stop).
  split; [done|]. apply elem_of_surviving. exists multi.
  repeat split; try done. lia.
Qed.

Lemma labelled_iff (r c : Z) (ch : ascii) :
  (exists slice row, slice ∈ slices /\ row ∈ lines slice /\
     labelled slice row = true /\ level row = r /\
     0 <= c - (multi_start slice - start) /\
     label_text start (len line) slice row
       !! Z.to_nat (c - (multi_start slice - start)) = Some ch) <->
  (exists row a b, (row, a, b) ∈ spec_labelled start stop ms /\
     level row = r /\
     a <= start + c < a + spec_label_width stop row a b /\
     label_of row !! Z.to_nat (start + c - a) = Some ch).
Proof.
  split.
  - intros (slice & row & Hs & Hrow & Hl & Hr & Hc & Hch).
    pose proof (proj1 (Forall_forall _ _) slices_fit slice Hs) as Hfit.
    rewrite <- Hlen in Hch.
    rewrite (label_text_take start stop slice row Hfit Hrow) in Hch.
    apply list_elem_of_fmap in Hs as (multi & -> & Hm).
    simpl in Hrow, Hc, Hch.
    destruct (selected_rows multi row Hm Hrow)
      as (Hin & H1 & H3 & H4 & _ & H6).
    apply andb_true_iff in Hl as [Ht Hst%bool_decide_eq_true].
    simpl in Hst.
    assert (Ha : Z.max (multi_start multi) start = line_start row) by lia.
    rewrite Ha in *.
    apply lookup_take_Some in Hch as [Hch Hi].
    pose proof (lookup_lt_Some _ _ _ Hch) as Hlt.
    exists row, (line_start row), (Z.min (line_stop row) stop).
    split; [|split; [done|split]].
    + apply elem_of_spec_labelled. repeat split; try done.
      apply elem_of_surviving. exists multi. repeat split; try done; lia.
    + unfold spec_label_width, label_of, len. lia.
    + unfold label_of.
      by replace (start + c - line_start row)
        with (c - (line_start row - start)) by lia.
  - intros (row & a & b & Hin & Hr & Hc & Hch).
    apply elem_of_spec_labelled in Hin as (Ht & -> & Hin).
    apply elem_of_surviving in Hin as (multi & Hm & Hrow & Ha & -> & Hab).
    destruct (proj1 (Forall_forall _ _) Hok multi Hm) as [_ Hrows].
    destruct (proj1 (Forall_forall _ _) Hrows row Hrow) as [_ Hvalid].
    destruct (Hcov multi row (line_start row) Hm Hrow ltac:(lia))
      as (multi' & Hm' & Hrow' & Hp).
    destruct (Hspan multi' row Hm' Hrow') as [H3 H4].
    assert (Hs : reslice start stop multi' ∈ slices).
    { apply list_elem_of_fmap_2, Hsel_all; [done | lia | lia]. }
    pose proof (proj1 (Forall_forall _ _) slices_fit _ Hs) as Hfit.
    exists (reslice start stop multi'), row.
    rewrite <- Hlen, (label_text_take start stop _ row Hfit Hrow').
    simpl.
    assert (Hst : Z.max (multi_start multi') start = line_start row) by lia.
    rewrite Hst. repeat split; try done.
    + unfold labelled. simpl. rewrite Ht, Hst. simpl.
      by apply bool_decide_eq_true.
    + lia.
    + replace (c - (line_start row - start))
        with (start + c - line_start row) by lia.
      apply lookup_take_Some. split; [done|].
      unfold spec_label_width in Hc. lia.
Qed.

Lemma labelled_in_row (row : Line) (a b : Z) (c : Z) :
  (row, a, b) ∈ spec_labelled start stop ms ->
  a <= start + c < a + spec_label_width stop row a b ->
  spec_dash start stop ms (level row) c = true.
Proof.
  intros (_ & _ & Hin)%elem_of_spec_labelled Hc.
  apply spec_dash_true. exists row, a, b. split; [done|]. split; [done|].
  unfold spec_label_width in Hc. lia.
Qed.

Lemma line_as_specified :
  exists rows,
    annotate start line slices = Ok rows /\
    labels_as_specified start stop ms line rows /\
    (rows_stop_after start selected ->
     dashes_as_specified start stop ms line rows).
Proof.
  destruct (decide (slices = [])) as [Hnil|Hne].
  - exists []. rewrite Hnil.
    assert (Hnone : surviving start stop ms = []).
    { destruct (surviving start stop ms) as [|[[row a] b] rest] eqn:E;
        [done|].
      assert (Hl : level row ∈
                (fun '(row, _, _) => level row)
                  <$> surviving start stop ms)
        by (rewrite E; left).
      apply levels_selected in Hl. rewrite Hnil in Hl.
      by apply elem_of_nil in Hl. }
    split; [done|]. split.
    + split.
      * intros row a b (_ & _ & Hin)%elem_of_spec_labelled.
        rewrite Hnone in Hin. by apply elem_of_nil in Hin.
      * intros r c Hr. unfold len in Hr. simpl in Hr. lia.
    + intros _. unfold dashes_as_specified. rewrite Hnone.
      split; [done|]. split; [done|]. split; [constructor|].
      intros r c Hr. unfold len in Hr. simpl in Hr. lia.
  - destruct (annotate_spec start stop line slices Hlen Hne slices_fit)
      as (top & dm & m & Hmax & Hatt & Htop & _ & _ & Hm & _ & [Hh Hw] & Hcell).
    exists m. split; [done|].
    assert (Hin1 : top ∈ (slice ← slices; level <$> lines slice)).
    { destruct Hatt as (slice & row & Hs & Hrow & <-).
      apply list_elem_of_bind. exists slice.
      split; [by apply list_elem_of_fmap_2 | done]. }
    assert (Hdash : forall r c, 0 <= r < top + 1 -> 0 <= c < len line ->
              cell dm r c
              = Some (if spec_dash start stop ms r c then DASH else SPACE)).
    { intros r c Hr Hc. destruct (Hcell r c Hr Hc) as [-> _].
      destruct (last_write (dash_writes start slices) r c) as [ch|] eqn:E.
      - apply last_write_Some, elem_of_dash_writes in E as [-> E].
        by rewrite (proj1 (painted_iff r c) E).
      - destruct (spec_dash start stop ms r c) eqn:Ed; [|done].
        exfalso. apply (last_write_None _ _ _ E DASH).
        apply elem_of_dash_writes. split; [done|]. by apply painted_iff. }
    assert (Hlab : forall r c ch,
              last_write (label_writes start (len line) slices) r c = Some ch ->
              exists row a b,
                (row, a, b) ∈ spec_labelled start stop ms /\ level row = r /\
                a <= start + c < a + spec_label_width stop row a b /\
                label_of row !! Z.to_nat (start + c - a) = Some ch).
    { intros r c ch E.
      apply last_write_Some, elem_of_label_writes in E.
      by apply labelled_iff in E. }
    assert (Hnolab : forall r c,
              last_write (label_writes start (len line) slices) r c = None ->
              ~ spec_covered start stop ms r c).
    { intros r c E (row & a & b & Hin & Hr & Hc).
      destruct (label_of row !! Z.to_nat (start + c - a)) as [ch|] eqn:Ech.
      - apply (last_write_None _ _ _ E ch). apply elem_of_label_writes.
        apply labelled_iff. by exists row, a, b.
      - apply lookup_ge_None in Ech. unfold spec_label_width, len in Hc. lia. }
    split.
    + split.
      { intros row a b (_ & -> & Hin)%elem_of_spec_labelled.
        apply elem_of_surviving in Hin as (multi & Hm' & Hrow & Ha & -> & Hab).
        destruct (proj1 (Forall_forall _ _) Hok multi Hm') as [_ Hrows].
        destruct (proj1 (Forall_forall _ _) Hrows row Hrow) as [Hlevel _].
        destruct (Hcov multi row (line_start row) Hm' Hrow ltac:(lia))
          as (multi' & Hin' & Hrow' & Hp).
        assert (Hs : reslice start stop multi' ∈ slices).
        { apply list_elem_of_fmap_2, Hsel_all; [done | lia | lia]. }
        pose proof (Htop (reslice start stop multi') row Hs Hrow').
        unfold str. rewrite Hh. lia. }
      intros r c Hr Hc. unfold str in Hr. rewrite Hh in Hr.
      destruct (Hcell r c Hr Hc) as [_ Hm']. rewrite Hm', (Hdash r c Hr Hc).
      destruct (last_write (label_writes start (len line) slices) r c)
        as [ch|] eqn:E.
      * destruct (Hlab r c ch E) as (row & a & b & Hin & Hlev & Hrange & Hch).
        split.
        -- intros _. exists row, a, b. by rewrite Hch.
        -- intros Hno. destruct Hno. by exists row, a, b.
      * split; [|done]. intros Hcov'. by destruct (Hnolab r c E).
    + intros Hmeet.
      pose proof (levels_surviving top Hmeet Hin1) as Hin2.
      assert (Hsome : surviving start stop ms <> []).
      { intros E. rewrite E in Hin2. by apply elem_of_nil in Hin2. }
      assert (Hheight : spec_height start stop ms = Ok (len m)).
      { unfold spec_height.
        destruct (py_max_spec
                    ((fun '(row, _, _) => level row)
                       <$> surviving start stop ms))
          as (top' & -> & Hin' & Hle').
        { intros E. rewrite E in Hin2. by apply elem_of_nil in Hin2. }
        simpl. f_equal. rewrite Hh.
        pose proof (Hle' top Hin2).
        apply levels_selected, list_elem_of_bind in Hin' as (slice & Hl & Hs).
        apply list_elem_of_fmap in Hl as (row & -> & Hrow).
        pose proof (Htop slice row Hs Hrow). lia. }
      split; [done|]. split; [done|]. split; [exact Hw|].
      intros r c Hr Hc. unfold str in Hr. rewrite Hh in Hr.
      destruct (Hcell r c Hr Hc) as [_ Hm']. rewrite Hm', (Hdash r c Hr Hc).
      destruct (last_write (label_writes start (len line) slices) r c)
        as [ch|] eqn:E.
      * destruct (Hlab r c ch E) as (row & a & b & Hin & <- & Hrange & Hch).
        pose proof (labelled_in_row row a b c Hin Hrange) as Hd.
        rewrite Hd. repeat split; try done.
        intros _ Hno. destruct Hno. by exists row, a, b.
      * destruct (spec_dash start stop ms r c); repeat split; done.
Qed.
End OneLine.

(** ** All the lines, on groups per chunk *)

Lemma hard_folds_nonempty (width : nat) (line : str) :
  (0 < width)%nat ->
  forall room cur,
    (length cur + room = width)%nat ->
    Forall (fun fold => fold <> []) (hard_folds width room cur line).
Proof.
  intros Hw. induction line as [|c line IH]; intros room cur Hroom; simpl.
  - destruct cur; by repeat constructor.
  - destruct room as [|room].
    + constructor; [destruct cur; simpl in *; [lia | done]|].
      apply IH. simpl. lia.
    + apply IH. rewrite length_app. simpl. lia.
Qed.

Lemma hard_wrap_nonempty (width : Z) (line : str) :
  0 < width -> Forall (fun fold => fold <> []) (hard_wrap width line).
Proof.
  intros Hw. apply hard_folds_nonempty; simpl; lia.
Qed.

Lemma yield_folds_ranges (folds : list str) :
  Forall (fun fold => fold <> []) folds ->
  forall start,
    Forall (fun t : Z * Z * str => t.1.1 < t.1.2) (yield_folds start folds).1.
Proof.
  induction 1 as [|fold rest Hfold _ IH]; intros start; simpl.
  - constructor.
  - specialize (IH (start + len fold)).
    destruct (yield_folds (start + len fold) rest) as [out e]. simpl in *.
    constructor; [|done]. simpl. destruct fold; [done|].
    unfold len. simpl. lia.
Qed.

Lemma wrap_lines_ranges (wrap : Z -> str -> list str) (width count : Z)
    (rest : list str) :
  (forall line, Forall (fun fold => fold <> []) (wrap width line)) ->
  forall index start,
    Forall (fun t : Z * Z * str => t.1.1 < t.1.2)
           (wrap_lines wrap width count index start rest).
Proof.
  intros Hwrap. induction rest as [|line rest IH]; intros index start; simpl.
  - constructor.
  - set (line' := if index <? count - 1 then line ++ [SPACE] else line).
    pose proof (yield_folds_ranges _ (Hwrap line') start) as H.
    destruct (yield_folds start (wrap width line')) as [out start'].
    apply Forall_app. split; [done | apply IH].
Qed.

Lemma wrap_lines_contiguous (wrap : Z -> str -> list str) (width count : Z)
    (rest : list str) :
  forall index start,
    exists e, contiguous start (wrap_lines wrap width count index start rest) e.
Proof.
  induction rest as [|line rest IH]; intros index start; simpl.
  - by exists start.
  - set (line' := if index <? count - 1 then line ++ [SPACE] else line).
    pose proof (yield_folds_spec (wrap width line') start) as (Hc & _ & _).
    destruct (yield_folds start (wrap width line')) as [out start'].
    simpl in Hc. destruct (IH (index + 1) start') as [e He].
    exists e. by eapply contiguous_app.
Qed.

Lemma selected_in (ms : list Multiline) (index n : nat) (stop : Z) :
  Forall (fun multi => multi_start multi < stop) (take n (drop index ms)) ->
  forall multi,
    multi ∈ take n (drop index ms) ->
    multi ∈ ms /\ multi_start multi < stop.
Proof.
  intros Hin multi H. split; [|by apply (proj1 (Forall_forall _ _) Hin)].
  apply subseteq_take in H.
  apply list_elem_of_lookup in H as [i Hi]. rewrite lookup_drop in Hi.
  by eapply list_elem_of_lookup_2.
Qed.

Lemma selected_all (ms : list Multiline) (index n : nat) (start stop : Z) :
  Forall (fun multi => multi_stop multi <= start) (take index ms) ->
  Forall (fun multi => stop <= multi_start multi) (drop n (drop index ms)) ->
  forall multi,
    multi ∈ ms -> multi_start multi < stop -> start < multi_stop multi ->
    multi ∈ take n (drop index ms).
Proof.
  intros Hpast Hout multi Hm H1 H2.
  rewrite <- (take_drop index ms) in Hm.
  apply elem_of_app in Hm as [Hm|Hm].
  { pose proof (proj1 (Forall_forall _ _) Hpast multi Hm). simpl in *. lia. }
  rewrite <- (take_drop n (drop index ms)) in Hm.
  apply elem_of_app in Hm as [Hm|Hm]; [done|].
  pose proof (proj1 (Forall_forall _ _) Hout multi Hm). simpl in *. lia.
Qed.

Lemma pending_rows (ms : list Multiline) (index : nat) (start : Z) :
  rows_span ms -> pending start (drop index ms) ->
  rows_stop_after start (drop index ms).
Proof.
  intros Hspan Hpend multi row Hm Hrow.
  pose proof (proj1 (Forall_forall _ _) (pending_stops _ _ Hpend) multi Hm)
    as Hlt. simpl in Hlt.
  assert (Hin : multi ∈ ms).
  { apply list_elem_of_lookup in Hm as [i Hi]. rewrite lookup_drop in Hi.
    by eapply list_elem_of_lookup_2. }
  destruct (Hspan multi row Hin Hrow). lia.
Qed.

Lemma ascii_blocks_as_specified (ms : list Multiline)
    (wrapped : list (Z * Z * str)) :
  layout_ok ms -> rows_span ms -> rows_covered ms ->
  Forall (fun t : Z * Z * str => t.1.1 < t.1.2) wrapped ->
  forall index start e,
    contiguous start wrapped e ->
    Forall (fun multi => multi_stop multi <= start) (take index ms) ->
    in_order (drop index ms) ->
    exists blocks,
      ascii_blocks ms index wrapped = Ok blocks /\
      Forall2 (fun (t : Z * Z * str) (block : str * list str) =>
                 block.1 = replace_tab t.2 /\
                 labels_as_specified t.1.1 t.1.2 ms t.2 block.2)
              wrapped blocks /\
      (rows_stop_after start (drop index ms) ->
       Forall2 (fun (t : Z * Z * str) (block : str * list str) =>
                  block.1 = replace_tab t.2 /\
                  dashes_as_specified t.1.1 t.1.2 ms t.2 block.2)
               wrapped blocks).
Proof.
  intros Hok Hspan Hcov.
  induction 1 as [|[[s stop] line] rest Hrange _ IH];
    intros index start e Hcont Hpast Hord.
  - exists []. split; [done|]. split; [constructor|]. intros _. constructor.
  - destruct Hcont as (-> & Hlen & Hcont). simpl in Hrange, Hlen.
    destruct (select_slices_scan start stop (drop index ms) index Hord)
      as (n & k & Hs & Hi & Hin & Hout & Hk & Hp).
    destruct (line_as_specified ms start stop line (take n (drop index ms))
                Hok Hspan Hcov Hrange Hlen
                (selected_in ms index n stop Hin)
                (selected_all ms index n start stop Hpast Hout))
      as (rows & Hrows & Hl & Hd).
    destruct (IH (index + k)%nat stop e Hcont)
      as (blocks & Hblocks & Hlabels & Hdashes).
    { rewrite <- take_take_drop. apply Forall_app. split; [|done].
      eapply Forall_impl; [exact Hpast|]. simpl. intros. lia. }
    { rewrite <- drop_drop. by eapply pending_in_order. }
    exists ((replace_tab line, rows) :: blocks). split; [|split].
    + simpl. destruct (select_slices start stop (drop index ms) index)
        as [slices index']. simpl in Hs, Hi. subst slices index'.
      rewrite Hrows. simpl. by rewrite Hblocks.
    + by constructor.
    + intros Hafter. constructor.
      * split; [done|]. apply Hd. intros multi row Hm Hrow.
        apply (Hafter multi row); [|done]. by eapply subseteq_take.
      * apply Hdashes, pending_rows; [done|]. by rewrite <- drop_drop.
Qed.

Lemma as_ascii_blocks_as_specified (wrap : Z -> str -> list str)
    (self : AsciiMarkup) :
  chunked (multilines (markup self)) ->
  0 < wrapper_width self ->
  (forall w line, 0 < w -> Forall (fun fold => fold <> []) (wrap w line)) ->
  exists blocks,
    as_ascii_blocks wrap self = Ok blocks /\
    as_ascii wrap self = Ok (block ← blocks; block.1 :: block.2) /\
    Forall2 (fun (t : Z * Z * str) (block : str * list str) =>
               block.1 = replace_tab t.2 /\
               labels_as_specified t.1.1 t.1.2 (multilines (markup self))
                                   t.2 block.2)
            (Wrapper_call wrap (wrapper_width self) (text (markup self)))
            blocks /\
    (rows_stop_after 0 (multilines (markup self)) ->
     Forall2 (fun (t : Z * Z * str) (block : str * list str) =>
                block.1 = replace_tab t.2 /\
                dashes_as_specified t.1.1 t.1.2 (multilines (markup self))
                                    t.2 block.2)
             (Wrapper_call wrap (wrapper_width self) (text (markup self)))
             blocks).
Proof.
  intros (Hgroups & Hok & Hspan & Hcov) Hw Hwrap.
  destruct (wrap_lines_contiguous wrap (wrapper_width self)
              (len (splitlines (text (markup self))))
              (splitlines (text (markup self))) 0 0) as [e He].
  destruct (ascii_blocks_as_specified (multilines (markup self))
              (Wrapper_call wrap (wrapper_width self) (text (markup self)))
              Hok Hspan Hcov
              (wrap_lines_ranges wrap (wrapper_width self) _ _
                 (fun line => Hwrap (wrapper_width self) line Hw) 0 0)
              0%nat 0 e He (Forall_nil_2 _) Hgroups)
    as (blocks & Hblocks & Hlabels & Hdashes).
  exists blocks. split; [exact Hblocks|]. split; [|split; done].
  unfold as_ascii, as_ascii_blocks. by rewrite Hblocks.
Qed.

(** The overlap scenario of the specification, cut into chunks: X over
    [0, 2) and Y over [1, 4) give the chunks [0, 1), [1, 2) and [2, 4). *)
Lemma scenario_chunks :
  chunked [mkMultiline 0 1 [mkLine 0 2 (Some (str_of "X")) 0];
           mkMultiline 1 2 [mkLine 0 2 (Some (str_of "X")) 0;
                            mkLine 1 4 (Some (str_of "Y")) 1];
           mkMultiline 2 4 [mkLine 1 4 (Some (str_of "Y")) 1]].
Proof.
  split; [simpl; lia|]. split.
  { repeat (constructor; [split; [done | repeat (constructor; [split; simpl; lia|]); constructor]|]).
    constructor. }
  split.
  - intros multi row Hm Hrow.
    repeat (apply elem_of_cons in Hm as [->|Hm]); try by apply elem_of_nil in Hm.
    all: simpl in Hrow;
      repeat (apply elem_of_cons in Hrow as [->|Hrow]);
      try (by apply elem_of_nil in Hrow); simpl; lia.
  - intros multi row p Hm Hrow Hp.
    assert (Hrows : row = mkLine 0 2 (Some (str_of "X")) 0 \/
                    row = mkLine 1 4 (Some (str_of "Y")) 1).
    { repeat (apply elem_of_cons in Hm as [->|Hm]);
        try (by apply elem_of_nil in Hm); simpl in Hrow;
        repeat (apply elem_of_cons in Hrow as [->|Hrow]);
        try (by apply elem_of_nil in Hrow); auto. }
    destruct Hrows as [-> | ->]; simpl in Hp.
    + destruct (Z.lt_ge_cases p 1).
      * eexists. split; [left|]. split; [left | simpl; lia].
      * eexists. split; [right; left|]. split; [left | simpl; lia].
    + destruct (Z.lt_ge_cases p 2).
      * eexists. split; [right; left|]. split; [right; left | simpl; lia].
      * eexists. split; [right; right; left|]. split; [left | simpl; lia].
Qed.

Lemma scenario_chunks_after :
  rows_stop_after 0
    [mkMultiline 0 1 [mkLine 0 2 (Some (str_of "X")) 0];
     mkMultiline 1 2 [mkLine 0 2 (Some (str_of "X")) 0;
                      mkLine 1 4 (Some (str_of "Y")) 1];
     mkMultiline 2 4 [mkLine 1 4 (Some (str_of "Y")) 1]].
Proof.
  intros multi row Hm Hrow.
  repeat (apply elem_of_cons in Hm as [->|Hm]); try by apply elem_of_nil in Hm.
  all: simpl in Hrow;
    repeat (apply elem_of_cons in Hrow as [->|Hrow]);
    try (by apply elem_of_nil in Hrow); simpl; lia.
Qed.

Example scenario_chunks_ascii :
  as_ascii hard_wrap
    (mkAsciiMarkup
       (mkMarkup (str_of "ab cd")
          [mkSpan 0 2 (Some (str_of "X")); mkSpan 1 4 (Some (str_of "Y"))]
          [mkMultiline 0 1 [mkLine 0 2 (Some (str_of "X")) 0];
           mkMultiline 1 2 [mkLine 0 2 (Some (str_of "X")) 0;
                            mkLine 1 4 (Some (str_of "Y")) 1];
           mkMultiline 2 4 [mkLine 1 4 (Some (str_of "Y")) 1]])
       70)
  = Ok [str_of "ab cd"; str_of "X-   "; str_of " Y-- "].
Proof. vm_compute. reflexivity. Qed.






(** * Further properties *)

(** ** The HTML box renderer, continued *)

Section BoxMore.
Variable BACKGROUND : option str -> str.
Variables DARKER EVEN_DARKER : str -> str.
Variables YELLOW DARK_YELLOW DARKER_YELLOW : str.
Variables label color : bool.

Let box := box_spans BACKGROUND DARKER EVEN_DARKER
                     YELLOW DARK_YELLOW DARKER_YELLOW label color.

Lemma box_spans_labels (x : str) (sp : list Span) (previous : Z) :
  labels (box x previous sp)
  = if label then filter (fun t => t <> []) (omap type sp) else [].
Proof.
  revert previous. induction sp as [|a rest IH]; intros previous.
  - simpl. by destruct label.
  - unfold box. simpl. fold box. unfold labels in *.
    rewrite omap_app. simpl. rewrite IH.
    destruct label; simpl; [|done].
    destruct (type a) as [[|ch t]|]; simpl; done.
Qed.

Lemma box_spans_sublist (x : str) (sp : list Span) :
  forall previous,
    0 <= previous ->
    Forall Span_valid sp ->
    Forall (fun a => 0 <= start a) sp ->
    slice_from x previous `sublist_of` mjoin (text_slices (box x previous sp)).
Proof.
  induction sp as [|a rest IH]; intros previous Hp Hval Hpos.
  - simpl. by rewrite app_nil_r.
  - apply Forall_cons in Hval as [Ha Hval]. unfold Span_valid in Ha.
    apply Forall_cons in Hpos as [Ha0 Hpos].
    unfold box. simpl. fold box. rewrite text_slices_app.
    replace (text_slices (if label && truthy (type a) then _ else _))
      with (@nil str) by (destruct (label && truthy (type a)); done).
    simpl.
    specialize (IH (stop a) ltac:(lia) Hval Hpos).
    transitivity (slice x previous (start a)
                  ++ slice x (start a) (stop a) ++ slice_from x (stop a)).
    2:{ apply sublist_app; [done|]. by apply sublist_app. }
    rewrite slice_then_rest by lia.
    destruct (Z.le_gt_cases previous (start a)).
    + by rewrite slice_then_rest by lia.
    + apply sublist_inserts_l. unfold slice_from, clamp.
      destruct (Z.ltb_spec previous 0), (Z.ltb_spec (start a) 0); try lia.
      replace (Z.to_nat (Z.min previous (len x)))
        with (Z.to_nat (Z.min (start a) (len x))
              + (Z.to_nat (Z.min previous (len x))
                 - Z.to_nat (Z.min (start a) (len x))))%nat by lia.
      rewrite <- drop_drop. apply sublist_drop.
Qed.

Lemma box_spans_tags (x : str) (sp : list Span) (previous : Z) :
  last (box x previous sp) = Some (Tag (str_of "<div>")) /\
  str_of "</div>" ∉ tags (box x previous sp).
Proof.
  revert previous. induction sp as [|a rest IH]; intros previous.
  - split; [done|]. simpl. intros H%list_elem_of_singleton. discriminate H.
  - destruct (IH (stop a)) as [Hlast Hno]. fold box in Hlast, Hno.
    unfold box. simpl. fold box. split.
    + destruct (label && truthy (type a)); simpl;
        by destruct (box x (stop a) rest).
    + intros H. apply elem_of_cons in H as [H|H]; [discriminate H|].
      unfold tags in H. rewrite omap_app in H.
      apply elem_of_app in H as [H|H].
      * destruct (label && truthy (type a)); simpl in H.
        -- apply elem_of_cons in H as [H|H]; [discriminate H|].
           apply list_elem_of_singleton in H. discriminate H.
        -- by apply elem_of_nil in H.
      * simpl in H. apply elem_of_cons in H as [H|H]; [discriminate H|].
        by apply Hno.
Qed.
End BoxMore.

(** X1: [as_html] yields a label for exactly the spans whose category is
    not empty, in the order of the sorted spans, when the class attribute
    [label] is set ([BoxLabelMarkup]), and no label at all when it is not
    ([BoxMarkup]). *)
Theorem BoxMarkup_as_html_labels
    (BACKGROUND : option str -> str) (DARKER EVEN_DARKER : str -> str)
    (YELLOW DARK_YELLOW DARKER_YELLOW : str) (color : bool) (self : Markup) :
  labels (BoxMarkup_as_html BACKGROUND DARKER EVEN_DARKER
            YELLOW DARK_YELLOW DARKER_YELLOW true color self)
  = filter (fun t => t <> []) (omap type (spans self)) /\
  labels (BoxMarkup_as_html BACKGROUND DARKER EVEN_DARKER
            YELLOW DARK_YELLOW DARKER_YELLOW false color self)
  = [].
Proof.
  unfold BoxMarkup_as_html. split.
  - apply (box_spans_labels BACKGROUND DARKER EVEN_DARKER
             YELLOW DARK_YELLOW DARKER_YELLOW true color).
  - apply (box_spans_labels BACKGROUND DARKER EVEN_DARKER
             YELLOW DARK_YELLOW DARKER_YELLOW false color).
Qed.

(** X2: without [color] ([BoxLabelMarkup]) the tables [BACKGROUND],
    [DARKER] and [EVEN_DARKER] are never looked up: the output is the same
    whatever they hold; with [color] ([BoxMarkup]) the three shades of
    yellow are never used. *)
Theorem BoxMarkup_as_html_colors
    (B1 B2 : option str -> str) (D1 D2 E1 E2 : str -> str)
    (Y1 Y2 DY1 DY2 DDY1 DDY2 : str) (label : bool) (self : Markup) :
  BoxMarkup_as_html B1 D1 E1 Y1 DY1 DDY1 label false self
  = BoxMarkup_as_html B2 D2 E2 Y1 DY1 DDY1 label false self /\
  BoxMarkup_as_html B1 D1 E1 Y1 DY1 DDY1 label true self
  = BoxMarkup_as_html B1 D1 E1 Y2 DY2 DDY2 label true self.
Proof.
  unfold BoxMarkup_as_html. split; f_equal; generalize 0;
    induction (spans self) as [|a rest IH]; intros previous; simpl;
    try done; by rewrite IH.
Qed.

(** X3: when no span starts before offset 0, [as_html] drops no character
    of the text, however the spans overlap or nest: the text is a
    subsequence of the concatenation of the yielded slices. *)
Theorem BoxMarkup_as_html_keeps_text
    (BACKGROUND : option str -> str) (DARKER EVEN_DARKER : str -> str)
    (YELLOW DARK_YELLOW DARKER_YELLOW : str) (label color : bool)
    (self : Markup) :
  Forall Span_valid (spans self) ->
  Forall (fun a => 0 <= start a) (spans self) ->
  text self `sublist_of`
    mjoin (text_slices
             (BoxMarkup_as_html BACKGROUND DARKER EVEN_DARKER
                YELLOW DARK_YELLOW DARKER_YELLOW label color self)).
Proof.
  intros Hval Hpos. unfold BoxMarkup_as_html. simpl.
  pose proof (box_spans_sublist BACKGROUND DARKER EVEN_DARKER
                YELLOW DARK_YELLOW DARKER_YELLOW label color
                (text self) (spans self) 0 ltac:(lia) Hval Hpos) as H.
  unfold slice_from, clamp in H. simpl in H.
  by rewrite Z.min_l in H by (unfold len; lia).
Qed.

Lemma BoxMarkup_as_html_keeps_text_witness :
  str_of "abcdef" `sublist_of`
    mjoin (text_slices
             (BoxMarkup_as_html (fun _ => str_of "#e3f2fd") id id [] [] []
                false true
                (Markup_init (PyStr (str_of "abcdef"))
                   [mkSpan 1 2 None; mkSpan 0 4 None]))).
Proof.
  apply (BoxMarkup_as_html_keeps_text (fun _ => str_of "#e3f2fd") id id
           [] [] [] false true
           (Markup_init (PyStr (str_of "abcdef"))
              [mkSpan 1 2 None; mkSpan 0 4 None])).
  - repeat (constructor; [unfold Span_valid; simpl; lia|]). constructor.
  - repeat (constructor; [simpl; lia|]). constructor.
Defined.

(** ** The HTML line renderers *)

Lemma text_slices_fmap_tag {A} (f : A -> str) (l : list A) :
  text_slices ((fun x => Tag (f x)) <$> l) = [].
Proof. induction l; simpl; done. Qed.

Lemma slice_from_0 {A} (x : list A) : slice_from x 0 = x.
Proof.
  unfold slice_from, clamp. simpl. by rewrite Z.min_l by (unfold len; lia).
Qed.

Lemma line_groups_text (LINE : option str -> str) (x : str)
    (ms : list Multiline) :
  forall previous,
    0 <= previous -> chained previous ms ->
    mjoin (text_slices (line_groups LINE x previous ms))
    = slice_from x previous.
Proof.
  induction ms as [|multi rest IH]; intros previous Hp Hch.
  - simpl. apply app_nil_r.
  - destruct Hch as (H1 & H2 & Hrest). simpl.
    rewrite text_slices_app. unfold line_open.
    rewrite (text_slices_fmap_tag
               (fun line => str_of "<span style=" ++ [dq] ++
                  str_of "border-bottom: 2px solid " ++ LINE (line_type line)
                  ++ str_of "; padding-bottom: "
                  ++ py_str (PyInt (1 + level line * 3)) ++ str_of "px"
                  ++ [dq] ++ str_of ">")).
    simpl. rewrite text_slices_app.
    rewrite (text_slices_fmap_tag (fun _ => str_of "</span>")). simpl.
    rewrite IH by (done || lia).
    rewrite slice_then_rest by lia. apply slice_then_rest. lia.
Qed.

Lemma label_group_text (BLUE : str) (multi : Multiline) (x : str) :
  text_slices (omap id (label_group BLUE multi x)) = [x].
Proof.
  unfold label_group. destruct (strips_to_nothing x); [done|].
  simpl. f_equal. rewrite omap_app, text_slices_app.
  replace (text_slices (omap id (match omap line_type (lines multi) with
                                 | [] => [] | _ => _ end)))
    with (@nil str); [done|].
  destruct (omap line_type (lines multi)) as [|t [|t' ts]]; try done.
  induction (lines multi) as [|line rest IH]; [done|].
  simpl. by destruct (line_type line).
Qed.

Lemma label_groups_text (BLUE : str) (x : str) (ms : list Multiline) :
  forall previous,
    0 <= previous -> chained previous ms ->
    mjoin (text_slices (omap id (label_groups BLUE x previous ms)))
    = slice_from x previous.
Proof.
  induction ms as [|multi rest IH]; intros previous Hp Hch.
  - simpl. apply app_nil_r.
  - destruct Hch as (H1 & H2 & Hrest). simpl.
    rewrite omap_app, text_slices_app, label_group_text. simpl.
    rewrite IH by (done || lia).
    rewrite slice_then_rest by lia. apply slice_then_rest. lia.
Qed.

(** X4: when the groups follow one another from offset 0 on (none starts
    before the stop of the one before it), the slices of the text that
    [LineMarkup.as_html] yields concatenate to the text: each group's
    text is yielded once, inside the nested underlines of its rows. *)
Theorem LineMarkup_as_html_text (LINE : option str -> str) (self : Markup) :
  chained 0 (multilines self) ->
  mjoin (text_slices (LineMarkup_as_html LINE self)) = text self.
Proof.
  intros H. unfold LineMarkup_as_html. simpl.
  rewrite line_groups_text by (done || lia). apply slice_from_0.
Qed.

Lemma LineMarkup_as_html_text_witness :
  let self := Markup_init (PyStr (str_of "ab cd"))
                [mkSpan 0 2 (Some (str_of "X"));
                 mkSpan 1 4 (Some (str_of "Y"))] in
  mjoin (text_slices (LineMarkup_as_html (fun _ => str_of "#aec7e8") self))
  = text self.
Proof.
  intros self. apply (LineMarkup_as_html_text _ self).
  vm_compute. repeat split; discriminate.
Defined.

(** X5: under the same condition the slices of the text that
    [LineLabelMarkup.as_html] yields concatenate to the text, whether a
    group is underlined or, being all whitespace, yielded bare. *)
Theorem LineLabelMarkup_as_html_text (BLUE : str) (self : Markup) :
  chained 0 (multilines self) ->
  mjoin (text_slices (omap id (LineLabelMarkup_as_html BLUE self)))
  = text self.
Proof.
  intros H. unfold LineLabelMarkup_as_html. simpl.
  rewrite label_groups_text by (done || lia). apply slice_from_0.
Qed.

Lemma LineLabelMarkup_as_html_text_witness :
  let self := Markup_init (PyStr (str_of "ab cd"))
                [mkSpan 0 2 (Some (str_of "X"));
                 mkSpan 1 4 (Some (str_of "Y"))] in
  mjoin (text_slices (omap id (LineLabelMarkup_as_html (str_of "#1f77b4") self)))
  = text self.
Proof.
  intros self. apply (LineLabelMarkup_as_html_text _ self).
  vm_compute. repeat split; discriminate.
Defined.

Lemma repr_html_app (xs ys : list (option piece)) :
  repr_html (xs ++ ys)
  = a ← repr_html xs; b ← repr_html ys; Ok (a ++ b).
Proof.
  induction xs as [|[p|] xs IH]; simpl.
  - by destruct (repr_html ys).
  - rewrite IH. destruct (repr_html xs); simpl; [|done].
    destruct (repr_html ys); simpl; [|done]. by rewrite app_assoc.
  - done.
Qed.

Lemma repr_html_Ok (xs : list (option piece)) :
  (exists html, repr_html xs = Ok html) <-> Forall is_Some xs.
Proof.
  induction xs as [|[p|] xs IH]; simpl.
  - split; [constructor | by eexists].
  - split.
    + intros [html H]. constructor; [by eexists|]. apply IH.
      destruct (repr_html xs); [by eexists | done].
    + intros [_ [html H]%IH]%Forall_cons. rewrite H. by eexists.
  - split; [by intros [? ?] | intros [[? ?] _]%Forall_cons; done].
Qed.

Lemma repr_html_Raise (xs : list (option piece)) (e : exn) :
  repr_html xs = Raise e -> e = TypeError.
Proof.
  induction xs as [|[p|] xs IH]; simpl; try done.
  - destruct (repr_html xs); simpl; [done|]. intros [= <-]. by apply IH.
  - by intros [= <-].
Qed.

Lemma label_rows_all_str (rows : list Line) (open close : str) :
  Forall is_Some
    (line ← rows; [Some (Tag open); Label <$> line_type line; Some (Tag close)])
  <-> Forall (fun line => line_type line <> None) rows.
Proof.
  induction rows as [|line rows IH]; simpl.
  - split; constructor.
  - rewrite !Forall_cons, IH. split.
    + intros (_ & Hl & _ & Hrest). split; [|done].
      destruct (line_type line); [done | by destruct Hl].
    + intros [Hl Hrest]. repeat split; try done; try by eexists.
      destruct (line_type line); [by eexists | done].
Qed.

Lemma label_group_all_str (BLUE : str) (x : str) (multi : Multiline) :
  Forall is_Some
    (label_group BLUE multi (slice x (multi_start multi) (multi_stop multi)))
  <-> ~ yields_None x multi.
Proof.
  unfold label_group, yields_None.
  destruct (strips_to_nothing _) eqn:Hstrip.
  - split; [by intros _ [? _] | intros _; repeat constructor; by eexists].
  - rewrite !Forall_app.
    assert (Hhead : forall a b c d : piece,
              Forall is_Some [Some a; Some b; Some c; Some d])
      by (intros; repeat constructor; by eexists).
    assert (Htail : forall e : piece, Forall is_Some [Some e])
      by (intros; repeat constructor; by eexists).
    destruct (omap line_type (lines multi)) as [|t [|t' ts]] eqn:Htypes.
    + split.
      * intros _ (_ & Hlen & _). simpl in Hlen. lia.
      * intros _. split; [apply Hhead|]. split; [constructor | apply Htail].
    + split.
      * intros _ (_ & Hlen & _). simpl in Hlen. lia.
      * intros _. split; [apply Hhead|]. split; [apply Htail | apply Htail].
    + rewrite label_rows_all_str. split.
      * intros (_ & Hrows & _) (_ & _ & line & Hin & Hnone).
        by apply (proj1 (Forall_forall _ _) Hrows line Hin).
      * intros Hno. split; [apply Hhead|]. split; [|apply Htail].
        apply Forall_forall. intros line Hin Hnone. apply Hno.
        repeat split; [simpl; lia|]. by exists line.
Qed.

Lemma label_groups_all_str (BLUE : str) (x : str) (ms : list Multiline) :
  forall previous,
    Forall is_Some (label_groups BLUE x previous ms)
    <-> Forall (fun multi => ~ yields_None x multi) ms.
Proof.
  induction ms as [|multi rest IH]; intros previous; simpl.
  - split; repeat constructor; by eexists.
  - rewrite !Forall_cons, Forall_app, IH, label_group_all_str.
    split; [by intros (_ & ? & ?) | intros [? ?]; repeat split; try done].
Qed.

(** X6: [_repr_html_] of a [LineLabelMarkup] raises [TypeError] exactly
    when some group whose text is not all whitespace has two or more rows
    with a category and a row without one (the loop over the rows then
    yields [None], which [''.join] refuses); otherwise it returns the
    joined string. *)
Theorem LineLabelMarkup_repr_html (BLUE : str) (self : Markup) :
  (repr_html (LineLabelMarkup_as_html BLUE self) = Raise TypeError <->
     exists multi, multi ∈ multilines self /\ yields_None (text self) multi) /\
  ((exists html, repr_html (LineLabelMarkup_as_html BLUE self) = Ok html) <->
     forall multi, multi ∈ multilines self -> ~ yields_None (text self) multi).
Proof.
  assert (Hok : (exists html,
                   repr_html (LineLabelMarkup_as_html BLUE self) = Ok html) <->
                forall multi, multi ∈ multilines self ->
                  ~ yields_None (text self) multi).
  { rewrite repr_html_Ok. unfold LineLabelMarkup_as_html.
    rewrite Forall_cons, label_groups_all_str, Forall_forall.
    split; [by intros [_ ?] | intros ?; split; [by eexists | done]]. }
  split; [|exact Hok].
  split.
  - intros Hraise.
    destruct (decide (Exists (fun multi =>
                strips_to_nothing
                  (slice (text self) (multi_start multi) (multi_stop multi))
                = false /\
                (2 <= length (omap line_type (lines multi)))%nat /\
                Exists (fun line => line_type line = None) (lines multi))
              (multilines self))) as [Hex|Hnex].
    + apply Exists_exists in Hex as (multi & Hin & H1 & H2 & H3).
      exists multi. split; [done|]. repeat split; try done.
      by apply Exists_exists in H3.
    + exfalso. destruct (proj2 Hok) as [html Hhtml]; [|congruence].
      intros multi Hin (H1 & H2 & line & Hl & Hnone). apply Hnex.
      apply Exists_exists. exists multi. repeat split; try done.
      apply Exists_exists. by exists line.
  - intros (multi & Hin & Hbad).
    destruct (repr_html (LineLabelMarkup_as_html BLUE self)) as [html|e] eqn:E.
    + exfalso. by apply (proj1 Hok (ex_intro _ html eq_refl) multi Hin).
    + f_equal. by eapply repr_html_Raise.
Qed.

Lemma LineLabelMarkup_repr_html_witness :
  repr_html
    (LineLabelMarkup_as_html (str_of "#1f77b4")
       (mkMarkup (str_of "ab cd") []
          [mkMultiline 0 4 [mkLine 0 4 (Some (str_of "X")) 0;
                            mkLine 1 3 (Some (str_of "Y")) 1;
                            mkLine 2 3 None 2]]))
  = Raise TypeError.
Proof.
  apply (LineLabelMarkup_repr_html (str_of "#1f77b4")
           (mkMarkup (str_of "ab cd") []
              [mkMultiline 0 4 [mkLine 0 4 (Some (str_of "X")) 0;
                                mkLine 1 3 (Some (str_of "Y")) 1;
                                mkLine 2 3 None 2]])).
  eexists. split; [left|]. split; [reflexivity|]. split; [simpl; lia|].
  eexists. split; [right; right; left | reflexivity].
Defined.

Lemma last_app_end {A} (l1 l2 : list A) (y : A) :
  last l2 = Some y -> last (l1 ++ l2) = Some y.
Proof. intros H. rewrite last_app. by rewrite H. Qed.

Lemma last_cons_end {A} (x : A) (l : list A) (y : A) :
  last l = Some y -> last (x :: l) = Some y.
Proof. intros H. rewrite last_cons. by rewrite H. Qed.

Lemma line_groups_tags (LINE : option str -> str) (x : str)
    (ms : list Multiline) (previous : Z) :
  last (line_groups LINE x previous ms) = Some (Tag (str_of "<div>")) /\
  str_of "</div>" ∉ tags (line_groups LINE x previous ms).
Proof.
  revert previous. induction ms as [|multi rest IH]; intros previous.
  - split; [done|]. simpl. intros H%list_elem_of_singleton. discriminate H.
  - destruct (IH (multi_stop multi)) as [Hlast Hno]. simpl. split.
    + by apply last_cons_end, last_app_end, last_cons_end, last_app_end.
    + unfold tags in *. rewrite omap_app. simpl. rewrite omap_app.
      intros H. apply elem_of_app in H as [H|H].
      * apply list_elem_of_omap in H as (p & Hp & Hx).
        apply list_elem_of_fmap in Hp as (line & -> & _).
        simpl in Hx. discriminate Hx.
      * apply elem_of_app in H as [H|H]; [|by apply Hno].
        apply list_elem_of_omap in H as (p & Hp & Hx).
        apply list_elem_of_fmap in Hp as (line & -> & _).
        simpl in Hx. discriminate Hx.
Qed.

Lemma label_group_tags (BLUE : str) (multi : Multiline) (x : str) :
  str_of "</div>" ∉ tags (omap id (label_group BLUE multi x)).
Proof.
  unfold label_group. destruct (strips_to_nothing x).
  - simpl. apply not_elem_of_nil.
  - unfold tags. intros H. rewrite !omap_app in H.
    apply elem_of_app in H as [H|H].
    { simpl in H. apply elem_of_cons in H as [H|H]; [discriminate H|].
      apply elem_of_cons in H as [H|H]; [discriminate H|].
      apply list_elem_of_singleton in H. discriminate H. }
    apply elem_of_app in H as [H|H].
    + destruct (omap line_type (lines multi)) as [|t [|t' ts]].
      * by apply elem_of_nil in H.
      * by apply elem_of_nil in H.
      * clear -H. induction (lines multi) as [|line rows IH]; simpl in H.
        { by apply elem_of_nil in H. }
        apply elem_of_cons in H as [H|H]; [discriminate H|].
        destruct (line_type line); simpl in H.
        -- apply elem_of_cons in H as [H|H]; [discriminate H | by apply IH].
        -- apply elem_of_cons in H as [H|H]; [discriminate H | by apply IH].
    + simpl in H. apply list_elem_of_singleton in H. discriminate H.
Qed.

Lemma label_groups_tags (BLUE : str) (x : str) (ms : list Multiline)
    (previous : Z) :
  last (label_groups BLUE x previous ms) = Some (Some (Tag (str_of "<div>"))) /\
  str_of "</div>" ∉ tags (omap id (label_groups BLUE x previous ms)).
Proof.
  revert previous. induction ms as [|multi rest IH]; intros previous.
  - split; [done|]. simpl. intros H%list_elem_of_singleton. discriminate H.
  - destruct (IH (multi_stop multi)) as [Hlast Hno]. simpl. split.
    + by apply last_cons_end, last_app_end.
    + unfold tags in *. rewrite omap_app, omap_app.
      intros H. apply elem_of_app in H as [H|H]; [|by apply Hno].
      by apply (label_group_tags BLUE multi
                  (slice x (multi_start multi) (multi_stop multi))).
Qed.


(** ** The ASCII renderer, continued *)

Lemma replace_tab_join (folds : list str) :
  mjoin (replace_tab <$> folds) = replace_tab (mjoin folds).
Proof.
  induction folds as [|fold rest IH]; [done|].
  change (replace_tab fold ++ mjoin (replace_tab <$> rest)
          = replace_tab (fold ++ mjoin rest)).
  rewrite IH. unfold replace_tab. by rewrite fmap_app.
Qed.

Lemma contents_join (triples : list (Z * Z * str)) :
  contents triples = mjoin (snd <$> triples).
Proof.
  induction triples as [|t rest IH]; [done|].
  change (t.2 ++ contents rest = t.2 ++ mjoin (snd <$> rest)).
  by rewrite IH.
Qed.

Lemma ascii_blocks_contents (ms : list Multiline)
    (wrapped : list (Z * Z * str)) :
  forall index blocks,
    ascii_blocks ms index wrapped = Ok blocks ->
    fst <$> blocks = replace_tab <$> (snd <$> wrapped).
Proof.
  induction wrapped as [|[[start stop] line] rest IH]; intros index blocks;
    simpl.
  - by intros [= <-].
  - destruct (select_slices start stop (drop index ms) index)
      as [slices index'].
    destruct (annotate start line slices) as [rows|]; simpl; [|done].
    destruct (ascii_blocks ms index' rest) as [blocks'|] eqn:E; simpl; [|done].
    intros [= <-]. simpl. f_equal. by eapply IH.
Qed.

(** X8: when the folds of a line concatenate to the line (the contract of
    [TextWrapper.wrap] for a positive width), the content lines that
    [as_ascii] yields concatenate to the lines of the text joined by single
    spaces, with every tab replaced by a space; no content line holds a
    tab. *)
Theorem as_ascii_content_lines (wrap : Z -> str -> list str)
    (self : AsciiMarkup) (blocks : list (str * list str)) :
  0 < wrapper_width self ->
  (forall w line, 0 < w -> mjoin (wrap w line) = line) ->
  as_ascii_blocks wrap self = Ok blocks ->
  mjoin (fst <$> blocks)
  = replace_tab (join_space (splitlines (text (markup self)))) /\
  Forall (fun block => TAB ∉ block.1) blocks.
Proof.
  intros Hw Hwrap Hblocks. unfold as_ascii_blocks in Hblocks.
  pose proof (ascii_blocks_contents _ _ _ _ Hblocks) as Hfst.
  split.
  - etrans; [exact (f_equal (@mjoin list _ ascii) Hfst)|].
    rewrite replace_tab_join.
    rewrite <- contents_join.
    unfold Wrapper_call.
    by destruct (wrap_lines_spec wrap Hwrap (wrapper_width self)
                   (len (splitlines (text (markup self))))
                   (splitlines (text (markup self))) Hw 0 0 ltac:(lia))
      as [_ ->].
  - apply Forall_forall. intros block Hin.
    assert (H : block.1 ∈ replace_tab <$>
                  (snd <$> Wrapper_call wrap (wrapper_width self)
                             (text (markup self)))).
    { rewrite <- Hfst. by apply list_elem_of_fmap_2. }
    apply list_elem_of_fmap in H as (fold & -> & _).
    unfold replace_tab. intros (c & Hc & _)%list_elem_of_fmap.
    case_bool_decide; [discriminate Hc | congruence].
Qed.

Lemma as_ascii_content_lines_witness :
  mjoin (fst <$> [(str_of "ab  ", @nil str); (str_of "defgh", []);
                  (str_of "i", [])])
  = replace_tab (join_space (splitlines (str_of "ab" ++ [TAB] ++ [LF]
                                          ++ str_of "defghi"))).
Proof.
  apply (as_ascii_content_lines hard_wrap
           (AsciiMarkup_init (PyStr (str_of "ab" ++ [TAB] ++ [LF]
                                      ++ str_of "defghi")) [] 5)).
  - simpl. lia.
  - intros w line _. apply hard_wrap_lossless.
  - vm_compute. reflexivity.
Defined.

Lemma matrix_set_chars (P : ascii -> Prop) (m m' : matrix) (r c : Z)
    (ch : ascii) :
  Forall (Forall P) m -> P ch ->
  matrix_set m r c ch = Ok m' -> Forall (Forall P) m'.
Proof.
  intros Hm Hch. unfold matrix_set.
  destruct (index_of (len m) r) as [i|]; simpl; [|done].
  destruct (m !! i) as [row|] eqn:Erow; [|done].
  destruct (index_of (len row) c) as [j|]; simpl; [|done].
  intros [= <-]. apply Forall_insert; [done|]. apply Forall_insert; [|done].
  eapply (proj1 (Forall_lookup _ _) Hm). exact Erow.
Qed.

Lemma write_all_chars (P : ascii -> Prop) (ws : list write) :
  Forall (fun w => P w.2) ws ->
  forall m m', Forall (Forall P) m ->
    write_all m ws = Ok m' -> Forall (Forall P) m'.
Proof.
  unfold write_all.
  induction 1 as [|[[r c] ch] ws Hch _ IH]; intros m m' Hm; simpl.
  - by intros [= <-].
  - destruct (matrix_set m r c ch) as [m1|] eqn:E; simpl; [|done].
    apply IH. by eapply matrix_set_chars.
Qed.

Lemma annotate_chars (start : Z) (line : str) (slices : list Multiline)
    (rows : list str) :
  annotate start line slices = Ok rows ->
  Forall (Forall (fun ch =>
            ch = SPACE \/ ch = DASH \/
            exists slice row, slice ∈ slices /\ row ∈ lines slice /\
              ch ∈ default [] (line_type row))) rows.
Proof.
  unfold annotate. destruct slices as [|slice0 rest]; [by intros [= <-]|].
  set (slices := slice0 :: rest).
  destruct (py_max _) as [top|]; simpl; [|done].
  rewrite paint_dashes_writes.
  destruct (write_all _ (dash_writes _ _)) as [dm|] eqn:Edm; simpl; [|done].
  rewrite paint_labels_writes.
  destruct (write_all dm _) as [m|] eqn:Em; simpl; [|done].
  intros [= <-].
  eapply write_all_chars; [|eapply write_all_chars|exact Em];
    [| |apply Forall_replicate, Forall_replicate; by left|exact Edm].
  - apply Forall_forall. intros [[r c] ch] Hin. simpl.
    apply elem_of_label_writes in Hin
      as (slice & row & Hs & Hr & _ & _ & _ & Hch).
    right. right. exists slice, row. repeat split; try done.
    apply list_elem_of_lookup_2 in Hch. unfold label_text, slice_to in Hch.
    by apply subseteq_take in Hch.
  - apply Forall_forall. intros [[r c] ch] Hin. simpl.
    apply elem_of_dash_writes in Hin as [-> _]. right. by left.
Qed.

Lemma ascii_blocks_chars (ms : list Multiline)
    (wrapped : list (Z * Z * str)) :
  forall index blocks,
    ascii_blocks ms index wrapped = Ok blocks ->
    Forall (fun block =>
              Forall (Forall (fun ch =>
                ch = SPACE \/ ch = DASH \/
                exists multi row, multi ∈ ms /\ row ∈ lines multi /\
                  ch ∈ default [] (line_type row))) block.2) blocks.
Proof.
  induction wrapped as [|[[start stop] line] rest IH]; intros index blocks;
    simpl.
  - intros [= <-]. constructor.
  - pose proof (select_slices_spec start stop (drop index ms) index) as Hsel.
    destruct (select_slices start stop (drop index ms) index)
      as [slices index']. simpl in Hsel.
    destruct (annotate start line slices) as [rows|] eqn:Erows; simpl; [|done].
    destruct (ascii_blocks ms index' rest) as [blocks'|] eqn:E; simpl; [|done].
    intros [= <-]. constructor; [|by eapply IH]. simpl.
    eapply Forall_impl; [by eapply annotate_chars|]. intros row Hrow.
    eapply Forall_impl; [exact Hrow|].
    intros ch [?|[?|(slice & r & Hs & Hr & Hch)]];
      [by left | right; by left |].
    right. right.
    destruct (proj1 (Forall_forall _ _) Hsel slice Hs)
      as (multi & Hin & _ & ->).
    exists multi, r. repeat split; try done.
    apply list_elem_of_lookup in Hin as [i Hi]. rewrite lookup_drop in Hi.
    by eapply list_elem_of_lookup_2.
Qed.

(** X9: every character of every annotation row that [as_ascii] yields is
    a space, a dash, or a character of the category of some row of the
    document's groups; in a document without categories the annotation
    rows hold spaces and dashes only. *)
Theorem as_ascii_annotation_chars (wrap : Z -> str -> list str)
    (self : AsciiMarkup) (blocks : list (str * list str)) :
  as_ascii_blocks wrap self = Ok blocks ->
  Forall (fun block =>
            Forall (Forall (fun ch =>
              ch = SPACE \/ ch = DASH \/
              exists multi row,
                multi ∈ multilines (markup self) /\ row ∈ lines multi /\
                ch ∈ default [] (line_type row))) block.2) blocks /\
  (Forall (fun multi => Forall (fun row => line_type row = None) (lines multi))
          (multilines (markup self)) ->
   Forall (fun block =>
             Forall (Forall (fun ch => ch = SPACE \/ ch = DASH)) block.2)
          blocks).
Proof.
  intros Hblocks.
  pose proof (ascii_blocks_chars _ _ _ _ Hblocks) as Hchars.
  split; [exact Hchars|]. intros Hnone.
  eapply Forall_impl; [exact Hchars|]. intros block Hblock.
  eapply Forall_impl; [exact Hblock|]. intros row Hrow.
  eapply Forall_impl; [exact Hrow|].
  intros ch [?|[?|(multi & r & Hm & Hr & Hch)]]; [by left | by right |].
  pose proof (proj1 (Forall_forall _ _) Hnone multi Hm) as Hrows.
  rewrite (proj1 (Forall_forall _ _) Hrows r Hr) in Hch.
  by apply elem_of_nil in Hch.
Qed.

Lemma as_ascii_annotation_chars_witness :
  Forall (fun block =>
            Forall (Forall (fun ch => ch = SPACE \/ ch = DASH)) block.2)
         [(str_of "abcde", [str_of "   --"]);
          (str_of "fghij", [str_of "-----"]);
          (str_of "kl", [])].
Proof.
  apply (as_ascii_annotation_chars hard_wrap
           (AsciiMarkup_init (PyStr (str_of "abcdefghijkl"))
              [mkSpan 3 10 None] 5)).
  - vm_compute. reflexivity.
  - repeat constructor.
Defined.

(** X10: a document rebuilt from its own text and spans is the same
    document: [str] of a string is the string, and sorting the sorted
    spans changes nothing, so the groups are the same too. *)
Theorem Markup_init_rebuild (v : pyval) (sp : list Span) (width : Z) :
  let doc := Markup_init v sp in
  Markup_init (PyStr (text doc)) (spans doc) = doc /\
  AsciiMarkup_init (PyStr (text doc)) (spans doc) width
  = AsciiMarkup_init v sp width.
Proof.
  assert (Hsorted : sorted (sorted sp) = sorted sp).
  { unfold sorted at 1. rewrite sorted_from_ordered; [done|].
    apply (sorted_from_inv [] sp I). }
  simpl. unfold AsciiMarkup_init, Markup_init. simpl. by rewrite Hsorted.
Qed.

Lemma select_slices_beyond (start stop : Z) (rest : list Multiline)
    (index : nat) :
  match rest with [] => True | multi :: _ => stop <= multi_start multi end ->
  select_slices start stop rest index = ([], index).
Proof.
  destruct rest as [|multi rest]; simpl; [done|]. intros H.
  by destruct (Z.geb_spec (multi_start multi) stop); [|lia].
Qed.

Lemma ascii_blocks_plain (ms : list Multiline)
    (wrapped : list (Z * Z * str)) :
  match ms with
  | [] => True
  | multi :: _ =>
      Forall (fun t : Z * Z * str => t.1.2 <= multi_start multi) wrapped
  end ->
  ascii_blocks ms 0 wrapped
  = Ok ((fun t : Z * Z * str => (replace_tab t.2, [])) <$> wrapped).
Proof.
  intros H. induction wrapped as [|[[start stop] line] rest IH]; simpl.
  - done.
  - rewrite select_slices_beyond.
    + simpl. rewrite IH; [done|]. destruct ms; [done|].
      by apply Forall_cons in H as [_ ?].
    + destruct ms; [done|]. by apply Forall_cons in H as [? _].
Qed.

(** X11: when the document has no groups, or its first group starts at or
    after the stop of every wrapped line (spans beyond the end of the
    text), [as_ascii] yields the wrapped lines, tabs replaced, and no
    annotation row at all. *)
Theorem as_ascii_without_annotation (wrap : Z -> str -> list str)
    (self : AsciiMarkup) :
  let wrapped :=
    Wrapper_call wrap (wrapper_width self) (text (markup self)) in
  match multilines (markup self) with
  | [] => True
  | multi :: _ =>
      Forall (fun t : Z * Z * str => t.1.2 <= multi_start multi) wrapped
  end ->
  as_ascii wrap self = Ok (replace_tab <$> (snd <$> wrapped)).
Proof.
  intros wrapped H. unfold as_ascii, as_ascii_blocks. fold wrapped.
  rewrite ascii_blocks_plain by done.
  change (Ok (((fun t : Z * Z * str => (replace_tab t.2, @nil str)) <$> wrapped)
              ≫= (fun block => block.1 :: block.2))
          = Ok (replace_tab <$> (snd <$> wrapped))).
  f_equal. rewrite list_fmap_bind.
  clear H. induction wrapped as [|t rest IH]; [done|].
  cbn. f_equal. exact IH.
Qed.

Lemma as_ascii_without_annotation_witness :
  as_ascii hard_wrap
    (AsciiMarkup_init (PyStr (str_of "hello world"))
       [mkSpan 20 25 (Some (str_of "A")); mkSpan 11 12 None] 6)
  = Ok (replace_tab <$>
          (snd <$> Wrapper_call hard_wrap 6 (str_of "hello world"))).
Proof.
  apply (as_ascii_without_annotation hard_wrap
           (AsciiMarkup_init (PyStr (str_of "hello world"))
              [mkSpan 20 25 (Some (str_of "A")); mkSpan 11 12 None] 6)).
  vm_compute. repeat constructor; discriminate.
Defined.

(** X12: the groups selected for a line are a prefix of the groups from
    [index] on, cut to the line in order; [index] advances past exactly
    the selected groups that stop within the line; only the last selected
    group can be left for the next line, and it is left exactly when it
    stops beyond the line; the loop ends at the first group that starts
    at or after the stop of the line. *)
Theorem select_slices_prefix (start stop : Z) (rest : list Multiline)
    (index : nat) :
  let slices := (select_slices start stop rest index).1 in
  let index' := (select_slices start stop rest index).2 in
  let passed := (index' - index)%nat in
  slices = reslice start stop <$> take (length slices) rest /\
  (index <= index')%nat /\
  (passed <= length slices <= passed + 1)%nat /\
  Forall (fun multi => multi_start multi < stop /\ multi_stop multi <= stop)
         (take passed rest) /\
  (length slices = (passed + 1)%nat ->
     exists multi, rest !! passed = Some multi /\
       multi_start multi < stop < multi_stop multi) /\
  (length slices = passed ->
     forall multi, rest !! passed = Some multi -> stop <= multi_start multi).
Proof.
  revert index. induction rest as [|multi rest IH]; intros index; simpl.
  - replace (index - index)%nat with 0%nat by lia. simpl.
    repeat split; try done; lia.
  - destruct (Z.geb_spec (multi_start multi) stop) as [Hge|Hlt]; simpl.
    + replace (index - index)%nat with 0%nat by lia. simpl.
      repeat split; try done; try lia. intros _ m [= <-]. lia.
    + destruct (Z.leb_spec (multi_stop multi) stop) as [Hle|Hgt].
      * specialize (IH (S index)).
        destruct (select_slices start stop rest (S index))
          as [slices index'] eqn:E. simpl in *.
        destruct IH as (Hpre & Hidx & Hlen & Hpassed & Hlast & Hnext).
        replace (index' - index)%nat with (S (index' - S index)) by lia.
        simpl. repeat split; try lia.
        -- cbn. f_equal. exact Hpre.
        -- constructor; [lia | done].
        -- intros Hl. apply Hlast. lia.
        -- intros Hl. apply Hnext. lia.
      * simpl. replace (index - index)%nat with 0%nat by lia. simpl.
        repeat split; try done; try lia.
        intros _. exists multi. split; [done | lia].
Qed.

Lemma select_slices_prefix_witness :
  exists multi,
    [mkMultiline 0 2 []; mkMultiline 3 10 []; mkMultiline 12 14 []]
      !! ((select_slices 0 5 [mkMultiline 0 2 []; mkMultiline 3 10 [];
                              mkMultiline 12 14 []] 0).2 - 0)%nat
    = Some multi /\
    multi_start multi < 5 < multi_stop multi.
Proof.
  apply (select_slices_prefix 0 5
           [mkMultiline 0 2 []; mkMultiline 3 10 []; mkMultiline 12 14 []] 0).
  reflexivity.
Defined.
